(** * Video line-overlay compositor (App.tsx): model and specification check

    The development follows [src/App.tsx]: the overlay renderer [drawLines],
    the upload handler, the processing session ([processVideo], its per-frame
    callback [renderFrame], the recorder's [onstop] handler) and
    [cancelProcessing].

    Numbers.  A JavaScript number is modelled by [JS.number]: a real, one of
    the two infinities, or NaN.  Arithmetic on finite values is exact (the
    rounding of binary64 is not modelled) and the sign of zero is not
    tracked (a zero divisor counts as +0).  The special values follow
    ECMAScript: [0/0] is NaN, [x/0] is an infinity, NaN is falsy.

    Host.  The browser objects the component drives are modelled by the
    part of their behaviour the code relies on: the 2D canvas (stroke
    style, line width, current path, source-over painting), the media
    recorder ([stop()] on an active recorder queues a [dataavailable] and a
    [stop] event), promises (settled once) and the event loop, whose
    callbacks arrive as the events of [step].  React state updates apply in
    the order they are issued. *)

From Stdlib Require Import Reals Lra Lia ZArith List String Bool.
From Stdlib Require Import Strings.Byte.
Import ListNotations.

Open Scope R_scope.

(* ================================================================= *)
(** ** JavaScript numbers and the [Math] functions the program uses *)

Module JS.

Inductive number : Type :=
| NaN
| Infinity (negative : bool)
| Fin (r : R).

Definition Rzero (r : R) : bool := if Req_dec_T r 0 then true else false.
Definition Rneg (r : R) : bool := if Rlt_dec r 0 then true else false.

Definition neg (a : number) : number :=
  match a with
  | NaN => NaN
  | Infinity s => Infinity (negb s)
  | Fin r => Fin (- r)
  end.

Definition add (a b : number) : number :=
  match a, b with
  | NaN, _ | _, NaN => NaN
  | Infinity s, Infinity t => if Bool.eqb s t then Infinity s else NaN
  | Infinity s, Fin _ => Infinity s
  | Fin _, Infinity t => Infinity t
  | Fin x, Fin y => Fin (x + y)
  end.

Definition sub (a b : number) : number := add a (neg b).

Definition mul (a b : number) : number :=
  match a, b with
  | NaN, _ | _, NaN => NaN
  | Infinity s, Infinity t => Infinity (xorb s t)
  | Infinity s, Fin y => if Rzero y then NaN else Infinity (xorb s (Rneg y))
  | Fin x, Infinity t => if Rzero x then NaN else Infinity (xorb (Rneg x) t)
  | Fin x, Fin y => Fin (x * y)
  end.

Definition div (a b : number) : number :=
  match a, b with
  | NaN, _ | _, NaN => NaN
  | Infinity _, Infinity _ => NaN
  | Infinity s, Fin y => Infinity (xorb s (Rneg y))
  | Fin _, Infinity _ => Fin 0
  | Fin x, Fin y =>
      if Rzero y
      then (if Rzero x then NaN else Infinity (Rneg x))
      else Fin (x / y)
  end.

(** [ToBoolean] on numbers: NaN and zero are falsy. *)
Definition toBoolean (a : number) : bool :=
  match a with
  | NaN => false
  | Infinity _ => true
  | Fin r => negb (Rzero r)
  end.

(** [a || b] on numbers. *)
Definition or_else (a b : number) : number := if toBoolean a then a else b.

Definition isNaN (a : number) : bool :=
  match a with NaN => true | _ => false end.

Definition isFinite (a : number) : bool :=
  match a with Fin _ => true | _ => false end.

(** The real behind a finite number (0 for NaN and the infinities). *)
Definition to_R (a : number) : R :=
  match a with Fin r => r | _ => 0 end.

End JS.

Declare Scope js_scope.
Delimit Scope js_scope with js.
Bind Scope js_scope with JS.number.
Infix "+" := JS.add : js_scope.
Infix "-" := JS.sub : js_scope.
Infix "*" := JS.mul : js_scope.
Infix "/" := JS.div : js_scope.
Infix "||" := JS.or_else : js_scope.

Module Math.
Import JS.

Definition PI : number := Fin Rtrigo1.PI.

Definition abs (a : number) : number :=
  match a with
  | NaN => NaN
  | Infinity _ => Infinity false
  | Fin r => Fin (Rabs r)
  end.

Definition sin (a : number) : number :=
  match a with
  | Fin r => Fin (Rtrigo_def.sin r)
  | _ => NaN
  end.

Definition cos (a : number) : number :=
  match a with
  | Fin r => Fin (Rtrigo_def.cos r)
  | _ => NaN
  end.

Definition floor (a : number) : number :=
  match a with
  | Fin r => Fin (IZR (Zfloor r))
  | other => other
  end.

Definition ceil (a : number) : number :=
  match a with
  | Fin r => Fin (IZR (Zceil r))
  | other => other
  end.

(** [Math.round] rounds to the nearest integer, halves towards +infinity. *)
Definition round (a : number) : number :=
  match a with
  | Fin r => Fin (IZR (Zfloor (r + / 2)))
  | other => other
  end.

Definition max (a b : number) : number :=
  match a, b with
  | NaN, _ | _, NaN => NaN
  | Infinity false, _ | _, Infinity false => Infinity false
  | Infinity true, other | other, Infinity true => other
  | Fin x, Fin y => Fin (Rmax x y)
  end.

Definition min (a b : number) : number :=
  match a, b with
  | NaN, _ | _, NaN => NaN
  | Infinity true, _ | _, Infinity true => Infinity true
  | Infinity false, other | other, Infinity false => other
  | Fin x, Fin y => Fin (Rmin x y)
  end.

End Math.

Import JS.

(* ================================================================= *)
(** ** The 2D canvas

    The surface is kept as the list of paint operations applied to it, newest
    first; [pixel_at] composes them with the canvas default, source-over.
    Colours are premultiplied RGBA with components in [0,1].  Coverage is
    ideal: a stroked segment covers the points of the rectangle of the
    current line width around it (butt caps, no anti-aliasing). *)

Module Canvas.

Definition point : Type := (R * R)%type.

Record pixel : Type := mkPixel { red : R; green : R; blue : R; alpha : R }.

Definition transparent : pixel := mkPixel 0 0 0 0.

(** [rgba(r, g, b, a)] with 8-bit channels and alpha in [0,1]. *)
Definition rgba (r g b a : R) : pixel :=
  mkPixel (r / 255 * a) (g / 255 * a) (b / 255 * a) a.

(** Source-over compositing of [src] on top of [dst]. *)
Definition over (src dst : pixel) : pixel :=
  mkPixel (red src + (1 - alpha src) * red dst)
          (green src + (1 - alpha src) * green dst)
          (blue src + (1 - alpha src) * blue dst)
          (alpha src + (1 - alpha src) * alpha dst).

Definition Rleb (a b : R) : bool := if Rle_dec a b then true else false.
Definition Rltb (a b : R) : bool := if Rlt_dec a b then true else false.

Definition clamp01 (a : R) : R := Rmax 0 (Rmin 1 a).

Record segment : Type := mkSegment { seg_from : point; seg_to : point }.

(** The points painted when [s] is stroked with line width [w]: those whose
    projection falls on the segment and whose distance to its line is at
    most [w/2] (written without square roots).  A segment of length zero
    paints nothing. *)
Definition covers (w : R) (pt : point) (s : segment) : bool :=
  let '(x0, y0) := seg_from s in
  let '(x1, y1) := seg_to s in
  let '(px, py) := pt in
  let dx := x1 - x0 in
  let dy := y1 - y0 in
  let len2 := dx * dx + dy * dy in
  let dot := (px - x0) * dx + (py - y0) * dy in
  let cross := (px - x0) * dy - (py - y0) * dx in
  Rltb 0 len2 && Rleb 0 dot && Rleb dot len2
    && Rleb (4 * (cross * cross)) (w * w * len2).

Inductive paint_op : Type :=
| Stroke (segs : list segment) (width : R) (style : pixel)
| Image (img : point -> pixel) (dx dy dw dh : R).

Definition in_rect (pt : point) (x y w h : R) : bool :=
  Rleb x (fst pt) && Rleb (fst pt) (x + w)
    && Rleb y (snd pt) && Rleb (snd pt) (y + h).

Definition apply_op (op : paint_op) (pt : point) (below : pixel) : pixel :=
  match op with
  | Stroke segs w c => if existsb (covers w pt) segs then over c below else below
  | Image img x y w h => if in_rect pt x y w h then over (img pt) below else below
  end.

Fixpoint pixel_at (ops : list paint_op) (pt : point) : pixel :=
  match ops with
  | [] => transparent
  | op :: older => apply_op op pt (pixel_at older pt)
  end.

(** [CanvasRenderingContext2D]: the drawing state the program touches, the
    current path (newest subpath first, newest point first) and the surface. *)
Record context : Type := mkContext {
  strokeStyle : pixel;
  lineWidth : R;
  path : list (list point);
  surface : list paint_op
}.

(** A fresh or resized canvas: opaque black stroke style, line width 1,
    empty path, transparent surface. *)
Definition reset : context := mkContext (rgba 0 0 0 1) 1 [] [].

(** [ctx.strokeStyle = `rgba(r, g, b, ${a})`]: the alpha is clamped to
    [0,1]; a string that is no colour (NaN, Infinity) leaves the style. *)
Definition set_strokeStyle_rgba (r g b : R) (a : number) (c : context) : context :=
  match a with
  | Fin x => mkContext (rgba r g b (clamp01 x)) (lineWidth c) (path c) (surface c)
  | _ => c
  end.

(** [ctx.lineWidth = w]: zero, negative, infinite and NaN values are ignored. *)
Definition set_lineWidth (w : number) (c : context) : context :=
  match w with
  | Fin x => if Rltb 0 x
             then mkContext (strokeStyle c) x (path c) (surface c)
             else c
  | _ => c
  end.

Definition beginPath (c : context) : context :=
  mkContext (strokeStyle c) (lineWidth c) [] (surface c).

(** [moveTo] and [lineTo] return at once on a non-finite argument. *)
Definition moveTo (x y : number) (c : context) : context :=
  match x, y with
  | Fin x, Fin y =>
      mkContext (strokeStyle c) (lineWidth c) ([(x, y)] :: path c) (surface c)
  | _, _ => c
  end.

Definition lineTo (x y : number) (c : context) : context :=
  match x, y with
  | Fin x, Fin y =>
      let path' := match path c with
                   | [] => [[(x, y)]]
                   | sub :: rest => ((x, y) :: sub) :: rest
                   end in
      mkContext (strokeStyle c) (lineWidth c) path' (surface c)
  | _, _ => c
  end.

Fixpoint subpath_segments (sub : list point) : list segment :=
  match sub with
  | q :: ((p :: _) as rest) => mkSegment p q :: subpath_segments rest
  | _ => []
  end.

Definition path_segments (p : list (list point)) : list segment :=
  flat_map subpath_segments p.

Definition stroke (c : context) : context :=
  mkContext (strokeStyle c) (lineWidth c) (path c)
    (Stroke (path_segments (path c)) (lineWidth c) (strokeStyle c) :: surface c).

(** [ctx.drawImage(source, dx, dy, dw, dh)], the source given as the image
    it shows once scaled to the destination rectangle. *)
Definition drawImage (img : point -> pixel) (dx dy dw dh : number) (c : context)
  : context :=
  match dx, dy, dw, dh with
  | Fin x, Fin y, Fin w, Fin h =>
      mkContext (strokeStyle c) (lineWidth c) (path c)
        (Image img x y w h :: surface c)
  | _, _, _, _ => c
  end.

End Canvas.

Import Canvas.

(* ================================================================= *)
(** ** Application state *)

(** [interface ProcessingState]. *)
Record ProcessingState : Type := mkProcessing {
  isProcessing : bool;
  progress : number;
  fps : number;
  processedFrames : number;
  totalFrames : number;
  estimatedTimeRemaining : number
}.

(** The line settings ([useState] hooks at the top of [App]). *)
Record LineSettings : Type := mkSettings {
  showVertical : bool;
  showHorizontal : bool;
  showRotating : bool;
  lineThickness : number;
  lineOpacity : number
}.

Definition initialSettings : LineSettings :=
  mkSettings true false false (Fin 2) (Fin 70).

Definition initialProcessing : ProcessingState :=
  mkProcessing false (Fin 0) (Fin 0) (Fin 0) (Fin 0) (Fin 0).

(* ----------------------------------------------------------------- *)
(** *** Overlay renderer *)

(** [const x = Math.abs(Math.sin(progress * Math.PI * 2)) * width]. *)
Definition vertical_x (progress width : number) : number :=
  (Math.abs (Math.sin (progress * Math.PI * Fin 2)) * width)%js.

(** The x position of the vertical line as a real function of the progress,
    on a canvas of finite width [w]. *)
Definition vertical_position (w : R) : R -> R :=
  fun p => to_R (vertical_x (Fin p) (Fin w)).

(** [const y = Math.abs(Math.sin(progress * Math.PI * 2)) * height]. *)
Definition horizontal_y (progress height : number) : number :=
  (Math.abs (Math.sin (progress * Math.PI * Fin 2)) * height)%js.

Definition drawLines (s : LineSettings) (ctx : context)
    (width height progress : number) : context :=
  let thickness := lineThickness s in
  let opacity := (lineOpacity s / Fin 100)%js in
  let ctx := set_strokeStyle_rgba 255 255 255 opacity ctx in
  let ctx := set_lineWidth thickness ctx in
  let ctx :=
    if showVertical s then
      let x := vertical_x progress width in
      stroke (lineTo x height (moveTo x (Fin 0) (beginPath ctx)))
    else ctx in
  let ctx :=
    if showHorizontal s then
      let y := horizontal_y progress height in
      stroke (lineTo width y (moveTo (Fin 0) y (beginPath ctx)))
    else ctx in
  let ctx :=
    if showRotating s then
      let centerX := (width / Fin 2)%js in
      let centerY := (height / Fin 2)%js in
      let radius := (Math.min width height * Fin (4 / 10))%js in
      let angle := (progress * Math.PI * Fin 2)%js in
      stroke (lineTo (centerX + Math.cos angle * radius)%js
                     (centerY + Math.sin angle * radius)%js
                (moveTo centerX centerY (beginPath ctx)))
    else ctx in
  ctx.

(** The context once [drawLines] has set its stroke style and line width. *)
Definition styled (s : LineSettings) (ctx : context) : context :=
  set_lineWidth (lineThickness s)
    (set_strokeStyle_rgba 255 255 255 (lineOpacity s / Fin 100)%js ctx).

(** The segments stroked by [beginPath; moveTo(c, d); lineTo(a, b)]. *)
Definition line_between (c d a b : number) : list segment :=
  path_segments (path (lineTo a b (moveTo c d (beginPath reset)))).

(** The strokes one call of [drawLines] paints, newest first, in line width
    [lw] and style [st]. *)
Definition overlay_strokes (s : LineSettings) (lw : R) (st : pixel)
    (width height progress : number) : list paint_op :=
  (if showRotating s then
     let centerX := (width / Fin 2)%js in
     let centerY := (height / Fin 2)%js in
     let radius := (Math.min width height * Fin (4 / 10))%js in
     let angle := (progress * Math.PI * Fin 2)%js in
     [Stroke (line_between centerX centerY
                (centerX + Math.cos angle * radius)%js
                (centerY + Math.sin angle * radius)%js) lw st]
   else [])
  ++ (if showHorizontal s then
        let y := horizontal_y progress height in
        [Stroke (line_between (Fin 0) y width y) lw st]
      else [])
  ++ (if showVertical s then
        let x := vertical_x progress width in
        [Stroke (line_between x (Fin 0) x height) lw st]
      else []).

(** Whether one of the paint operations [ops] reaches the point [pt]. *)
Definition painted_by (ops : list paint_op) (pt : point) : bool :=
  existsb (fun op => match op with
                     | Stroke segs w _ => existsb (covers w pt) segs
                     | Image _ x y w h => in_rect pt x y w h
                     end) ops.

Definition stroke_in_style (st : pixel) (op : paint_op) : Prop :=
  exists segs lw, op = Stroke segs lw st.

(** A surface painted black, as a video frame leaves it. *)
Definition black_canvas : context :=
  drawImage (fun _ => rgba 0 0 0 1) (Fin 0) (Fin 0) (Fin 100) (Fin 100) reset.

(* ----------------------------------------------------------------- *)
(** *** Browser objects *)

Record Blob : Type := mkBlob { blob_data : list Byte.byte; blob_type : string }.

Definition blob_size (b : Blob) : nat := List.length (blob_data b).

(** [new Blob(parts, { type })]. *)
Definition new_Blob (parts : list Blob) (type : string) : Blob :=
  mkBlob (flat_map blob_data parts) type.

(** An object URL, identified with the blob it stands for. *)
Inductive ObjectURL : Type := createObjectURL (b : Blob).

Inductive RecordingState : Type := inactive | recording | rec_paused.

Definition is_inactive (s : RecordingState) : bool :=
  match s with inactive => true | _ => false end.

Record MediaRecorder : Type := mkRecorder {
  state : RecordingState;
  mimeType : string;
  videoBitsPerSecond : Z;
  audioBitsPerSecond : Z;
  timeslice : option Z;
  gathered : list Byte.byte      (* encoded data not yet handed out *)
}.

(** The tasks a recorder queues on the event loop. *)
Inductive task : Type :=
| FireDataAvailable (data : Blob)
| FireStop.

(** [recorder.stop()]: nothing on an inactive recorder; otherwise the
    recorder becomes inactive and queues a task that fires [dataavailable]
    with the data gathered so far and then [stop]. *)
Definition MediaRecorder_stop (r : MediaRecorder) : MediaRecorder * list task :=
  if is_inactive (state r) then (r, [])
  else (mkRecorder inactive (mimeType r) (videoBitsPerSecond r)
          (audioBitsPerSecond r) (timeslice r) [],
        [FireDataAvailable (mkBlob (gathered r) (mimeType r)); FireStop]).

(** [recorder.start(timeslice)]. *)
Definition MediaRecorder_start (slice : Z) (r : MediaRecorder) : MediaRecorder :=
  mkRecorder recording (mimeType r) (videoBitsPerSecond r)
    (audioBitsPerSecond r) (Some slice) (gathered r).

Record MediaStream : Type := mkStream { tracks_live : bool }.
Record AudioElement : Type := mkAudio { audio_src : ObjectURL; audio_paused : bool }.
Inductive AudioContext : Type := ctx_running | ctx_closed.

(** What the per-frame callback reads from the hidden video element. *)
Record VideoSnapshot : Type := mkSnapshot {
  currentTime : number;
  v_duration : number;
  paused : bool;
  ended : bool;
  frame : point -> pixel
}.

(** What [processVideo] reads from the preview video element. *)
Record VideoElement : Type := mkVideo {
  videoWidth : number;
  videoHeight : number;
  duration : number
}.

(* ----------------------------------------------------------------- *)
(** *** The component: React state, refs, the run of [processVideo] in
    progress and the host's event loop *)

Inductive Promise : Type := Pending | Fulfilled | Rejected.

(** Where the [async] function [processVideo] stands: not called (or
    returned at its guard), suspended at one of its three [await]s, past
    them with the render loop started, or ended by an exception. *)
Inductive Phase : Type :=
| NotRunning | AwaitAudio | AwaitMetadata | AwaitPlay | Rendering | Threw.

Record Refs : Type := mkRefs {
  animationRef : option positive;
  mediaRecorderRef : option MediaRecorder;
  recordedChunksRef : list Blob;
  streamRef : option MediaStream;
  audioElementRef : option AudioElement;
  audioContextRef : option AudioContext
}.

Record CanvasElement : Type := mkCanvas {
  getContext : context;
  canvas_width : number;
  canvas_height : number
}.

(** The variables of one call of [processVideo] that its callbacks close
    over.  The objects it creates are kept under the refs they are stored
    in: within one call the local variable and the ref denote the same
    object. *)
Record Run : Type := mkRun {
  phase : Phase;
  audioReady : Promise;
  run_duration : number;   (* [const duration = video.duration] *)
  run_mimeType : string;   (* [const mimeType = ...] *)
  startTime : number       (* [const startTime = performance.now()] *)
}.

Record EventLoop : Type := mkLoop {
  scheduledFrame : option positive;   (* pending animation-frame callback *)
  nextHandle : positive;
  timers : list Z;                    (* delays (ms) of the pending timers *)
  tasks : list task                   (* queued recorder tasks, oldest first *)
}.

Record World : Type := mkWorld {
  videoUrl : option ObjectURL;
  processedVideoUrl : option ObjectURL;
  settings : LineSettings;
  processing : ProcessingState;
  canvas : CanvasElement;
  refs : Refs;
  run : Run;
  loop : EventLoop;
  isTypeSupported : string -> bool    (* [MediaRecorder.isTypeSupported] *)
}.

Definition with_videoUrl (u : option ObjectURL) (w : World) : World :=
  mkWorld u (processedVideoUrl w) (settings w) (processing w) (canvas w)
    (refs w) (run w) (loop w) (isTypeSupported w).

Definition setProcessedVideoUrl (u : option ObjectURL) (w : World) : World :=
  mkWorld (videoUrl w) u (settings w) (processing w) (canvas w)
    (refs w) (run w) (loop w) (isTypeSupported w).

(** [setProcessing(prev => f prev)]. *)
Definition setProcessing (f : ProcessingState -> ProcessingState) (w : World)
  : World :=
  mkWorld (videoUrl w) (processedVideoUrl w) (settings w) (f (processing w))
    (canvas w) (refs w) (run w) (loop w) (isTypeSupported w).

Definition with_canvas (c : CanvasElement) (w : World) : World :=
  mkWorld (videoUrl w) (processedVideoUrl w) (settings w) (processing w) c
    (refs w) (run w) (loop w) (isTypeSupported w).

Definition with_refs (r : Refs) (w : World) : World :=
  mkWorld (videoUrl w) (processedVideoUrl w) (settings w) (processing w)
    (canvas w) r (run w) (loop w) (isTypeSupported w).

Definition with_run (r : Run) (w : World) : World :=
  mkWorld (videoUrl w) (processedVideoUrl w) (settings w) (processing w)
    (canvas w) (refs w) r (loop w) (isTypeSupported w).

Definition with_loop (l : EventLoop) (w : World) : World :=
  mkWorld (videoUrl w) (processedVideoUrl w) (settings w) (processing w)
    (canvas w) (refs w) (run w) l (isTypeSupported w).

Definition initialWorld (supported : string -> bool) : World :=
  mkWorld None None initialSettings initialProcessing
    (mkCanvas reset (Fin 300) (Fin 150))
    (mkRefs None None [] None None None)
    (mkRun NotRunning Pending NaN EmptyString NaN)
    (mkLoop None 1%positive [] [])
    supported.

(** [requestAnimationFrame(renderFrame)] stored into [animationRef]. *)
Definition requestAnimationFrame (w : World) : World :=
  let h := nextHandle (loop w) in
  let r := refs w in
  with_refs (mkRefs (Some h) (mediaRecorderRef r) (recordedChunksRef r)
               (streamRef r) (audioElementRef r) (audioContextRef r))
    (with_loop (mkLoop (Some h) (Pos.succ h) (timers (loop w)) (tasks (loop w)))
       w).

(** [if (animationRef.current) cancelAnimationFrame(animationRef.current)]:
    the handle stays in the ref. *)
Definition cancelAnimationFrame (w : World) : World :=
  match animationRef (refs w) with
  | Some h =>
      let l := loop w in
      let pending :=
        match scheduledFrame l with
        | Some h' => if Pos.eqb h h' then None else Some h'
        | None => None
        end in
      with_loop (mkLoop pending (nextHandle l) (timers l) (tasks l)) w
  | None => w
  end.

Definition enqueue (ts : list task) (w : World) : World :=
  let l := loop w in
  with_loop (mkLoop (scheduledFrame l) (nextHandle l) (timers l)
               (tasks l ++ ts)) w.

Definition stop_tracks (s : MediaStream) : MediaStream := mkStream false.

(* ----------------------------------------------------------------- *)
(** *** Handlers *)

(** [handleFileUpload]; [file] is [event.target.files?.[0]]. *)
Definition handleFileUpload (file : option Blob) (w : World) : World :=
  match file with
  | Some f =>
      let url := createObjectURL f in
      setProcessing
        (fun prev => mkProcessing (isProcessing prev) (Fin 0) (fps prev)
                       (Fin 0) (totalFrames prev) (estimatedTimeRemaining prev))
        (setProcessedVideoUrl None (with_videoUrl (Some url) w))
  | None => w
  end.

(** The progress handed to [drawLines]:
    [currentTime / (duration || 1)] (both render loops). *)
Definition frame_progress (currentTime duration : number) : number :=
  (currentTime / (duration || Fin 1))%js.

(** [renderFrame] of the preview effect; [true] in the result when it
    requests the next frame. *)
Definition previewFrame (v : VideoSnapshot) (vw vh : number) (w : World)
  : World * bool :=
  let w :=
    if toBoolean vw && toBoolean vh then
      let ctx := drawImage (frame v) (Fin 0) (Fin 0) vw vh reset in
      let progress := frame_progress (currentTime v) (v_duration v) in
      with_canvas (mkCanvas (drawLines (settings w) ctx vw vh progress) vw vh) w
    else w in
  if negb (paused v) && negb (ended v)
  then (requestAnimationFrame w, true)
  else (w, false).

Definition vp9_opus : string := "video/webm;codecs=vp9,opus".
Definition vp8_opus : string := "video/webm;codecs=vp8,opus".
Definition webm : string := "video/webm".

(** The [mimeType] chosen in [processVideo]. *)
Definition selectMimeType (supported : string -> bool) : string :=
  if supported vp9_opus then vp9_opus
  else if supported vp8_opus then vp8_opus
  else webm.

(** The types in the order of preference. *)
Definition preference : list string := [vp9_opus; vp8_opus; webm].

(** Target frame rate, [const fps = 30]. *)
Definition targetFps : number := Fin 30.

(** Delay of the audio readiness fallback, [setTimeout(resolve, 1000)]. *)
Definition audioTimeoutMs : Z := 1000.

(** [mediaRecorder.ondataavailable]. *)
Definition ondataavailable (data : Blob) (w : World) : World :=
  if Nat.ltb 0 (blob_size data) then
    let r := refs w in
    with_refs (mkRefs (animationRef r) (mediaRecorderRef r)
                 (recordedChunksRef r ++ [data])
                 (streamRef r) (audioElementRef r) (audioContextRef r)) w
  else w.

(** [audioContext.close()] on the context of the run. *)
Definition close_audioContext (w : World) : World :=
  let r := refs w in
  with_refs (mkRefs (animationRef r) (mediaRecorderRef r) (recordedChunksRef r)
               (streamRef r) (audioElementRef r)
               (option_map (fun _ => ctx_closed) (audioContextRef r))) w.

(** [mediaRecorder.onstop]. *)
Definition onstop (w : World) : World :=
  let blob := new_Blob (recordedChunksRef (refs w)) (run_mimeType (run w)) in
  let url := createObjectURL blob in
  let w := setProcessedVideoUrl (Some url) w in
  let w := setProcessing
             (fun prev => mkProcessing false (Fin 100) (fps prev)
                            (processedFrames prev) (totalFrames prev)
                            (estimatedTimeRemaining prev)) w in
  close_audioContext w.

(** [recorder.stop()] on the recorder of the run, queueing its events. *)
Definition stop_recorder (w : World) : World :=
  match mediaRecorderRef (refs w) with
  | Some rec =>
      let '(rec', queued) := MediaRecorder_stop rec in
      let r := refs w in
      enqueue queued
        (with_refs (mkRefs (animationRef r) (Some rec') (recordedChunksRef r)
                      (streamRef r) (audioElementRef r) (audioContextRef r)) w)
  | None => w
  end.

(** [streamRef.current.getTracks().forEach(track => track.stop())],
    guarded by [if (streamRef.current)]. *)
Definition stop_stream (w : World) : World :=
  let r := refs w in
  with_refs (mkRefs (animationRef r) (mediaRecorderRef r) (recordedChunksRef r)
               (option_map stop_tracks (streamRef r))
               (audioElementRef r) (audioContextRef r)) w.

(** Pause the audio element and clear [audioElementRef]. *)
Definition stop_audio (w : World) : World :=
  let r := refs w in
  with_refs (mkRefs (animationRef r) (mediaRecorderRef r) (recordedChunksRef r)
               (streamRef r) None (audioContextRef r)) w.

(** Close the audio context, if the ref holds one, and clear the ref. *)
Definition release_audioContext (w : World) : World :=
  let r := refs w in
  with_refs (mkRefs (animationRef r) (mediaRecorderRef r) (recordedChunksRef r)
               (streamRef r) (audioElementRef r) None) w.

(** [cancelProcessing]. *)
Definition cancelProcessing (w : World) : World :=
  let w :=
    match mediaRecorderRef (refs w) with
    | Some rec => if negb (is_inactive (state rec)) then stop_recorder w else w
    | None => w
    end in
  let w := stop_stream w in
  let w := stop_audio w in
  let w := release_audioContext w in
  let w := cancelAnimationFrame w in
  setProcessing
    (fun prev => mkProcessing false (progress prev) (fps prev)
                   (processedFrames prev) (totalFrames prev)
                   (estimatedTimeRemaining prev)) w.

(** The state [renderFrame] publishes on a frame at [currentTime], with
    [elapsed] seconds since the loop started. *)
Definition frameState (currentTime duration elapsed : number) : ProcessingState :=
  let remaining := Math.max (Fin 0) (duration - currentTime)%js in
  mkProcessing true
    ((currentTime / duration) * Fin 100)%js
    (Math.round ((currentTime / elapsed) * Fin 10) / Fin 10)%js
    (Math.floor (currentTime * targetFps)%js)
    (Math.ceil duration)
    (Math.round remaining).

(** [renderFrame] of [processVideo]; [now] is [performance.now()]. *)
Definition renderFrame (v : VideoSnapshot) (now : number) (w : World) : World :=
  if negb (paused v) && negb (ended v) then
    let c := canvas w in
    let ctx := drawImage (frame v) (Fin 0) (Fin 0)
                 (canvas_width c) (canvas_height c) (getContext c) in
    let progress := frame_progress (currentTime v) (v_duration v) in
    let ctx := drawLines (settings w) ctx (canvas_width c) (canvas_height c)
                 progress in
    let w := with_canvas (mkCanvas ctx (canvas_width c) (canvas_height c)) w in
    let elapsed := ((now - startTime (run w)) / Fin 1000)%js in
    let w := setProcessing
               (fun _ => frameState (currentTime v) (run_duration (run w)) elapsed)
               w in
    requestAnimationFrame w
  else if ended v then
    let w := stop_recorder w in
    let w := stop_audio w in
    let w := release_audioContext w in
    let w := stop_stream w in
    cancelAnimationFrame w
  else w.

(* ----------------------------------------------------------------- *)
(** *** [processVideo], one definition per stretch between two [await]s *)

(** From the call to the first [await] (audio readiness). *)
Definition processVideo_start (video : VideoElement) (w : World) : World :=
  match videoUrl w with
  | None => w
  | Some url =>
      let w := with_canvas
                 (mkCanvas reset (videoWidth video) (videoHeight video)) w in
      let duration := duration video in
      let w := setProcessing
                 (fun _ => mkProcessing true (Fin 0) (Fin 0) (Fin 0)
                             (Math.ceil duration) (Math.ceil duration)) w in
      let r := refs w in
      let w := with_refs
                 (mkRefs (animationRef r) (mediaRecorderRef r)
                    (recordedChunksRef r) (streamRef r)
                    (Some (mkAudio url true)) (audioContextRef r)) w in
      let l := loop w in
      let w := with_loop
                 (mkLoop (scheduledFrame l) (nextHandle l)
                    (timers l ++ [audioTimeoutMs]) (tasks l)) w in
      with_run (mkRun AwaitAudio Pending duration EmptyString NaN) w
  end.

(** From audio readiness to the second [await] (metadata of the hidden
    video).  [new MediaRecorder] throws on a type that is not supported. *)
Definition processVideo_setup (w : World) : World :=
  let r := refs w in
  let mime := selectMimeType (isTypeSupported w) in
  let k := run w in
  if isTypeSupported w mime then
    let rec := mkRecorder inactive mime 8000000 128000 None [] in
    with_run (mkRun AwaitMetadata (audioReady k) (run_duration k) mime
                (startTime k))
      (with_refs (mkRefs (animationRef r) (Some rec) []
                    (Some (mkStream true)) (audioElementRef r)
                    (Some ctx_running)) w)
  else
    with_run (mkRun Threw (audioReady k) (run_duration k) mime (startTime k))
      (with_refs (mkRefs (animationRef r) (mediaRecorderRef r)
                    (recordedChunksRef r) (Some (mkStream true))
                    (audioElementRef r) (Some ctx_running)) w).

(** From metadata to the third [await]: the recording starts and both
    elements are asked to play. *)
Definition processVideo_record (w : World) : World :=
  let r := refs w in
  let k := run w in
  with_run (mkRun AwaitPlay (audioReady k) (run_duration k) (run_mimeType k)
              (startTime k))
    (with_refs (mkRefs (animationRef r)
                  (option_map (MediaRecorder_start 100) (mediaRecorderRef r))
                  (recordedChunksRef r) (streamRef r)
                  (option_map (fun a => mkAudio (audio_src a) false)
                     (audioElementRef r))
                  (audioContextRef r)) w).

(** After both [play()] promises: the render loop is started. *)
Definition processVideo_loop (now : number) (w : World) : World :=
  let k := run w in
  requestAnimationFrame
    (with_run (mkRun Rendering (audioReady k) (run_duration k)
                 (run_mimeType k) now) w).

Definition with_phase (p : Phase) (w : World) : World :=
  let k := run w in
  with_run (mkRun p (audioReady k) (run_duration k) (run_mimeType k)
              (startTime k)) w.

(** Settling the audio-readiness promise: only a pending promise changes,
    and [processVideo] resumes where it awaits it. *)
Definition settle_audioReady (outcome : Promise) (w : World) : World :=
  let k := run w in
  match audioReady k with
  | Pending =>
      let w := with_run (mkRun (phase k) outcome (run_duration k)
                           (run_mimeType k) (startTime k)) w in
      match phase k, outcome with
      | AwaitAudio, Fulfilled => processVideo_setup w
      | AwaitAudio, Rejected => with_phase Threw w
      | _, _ => w
      end
  | _ => w
  end.

(* ----------------------------------------------------------------- *)
(** *** Events of the host and the transition function *)

Inductive event : Type :=
| Upload (file : option Blob)
| ClickProcess (video : VideoElement)
| ClickCancel
| AudioCanPlayThrough
| AudioError
| TimerFired
| LoadedMetadata
| PlayResolved (now : number)
| PlayRejected
| RecorderChunk (data : list Byte.byte)
| AnimationFrame (v : VideoSnapshot) (now : number)
| RunTask.

Definition is_some {A : Type} (o : option A) : bool :=
  match o with Some _ => true | None => false end.

Definition run_task (t : task) (w : World) : World :=
  match t with
  | FireDataAvailable data => ondataavailable data w
  | FireStop => onstop w
  end.

(** What the page shows (the conditions of the JSX). *)
Definition showsProcessButton (w : World) : bool :=
  is_some (videoUrl w) && negb (isProcessing (processing w))
    && negb (is_some (processedVideoUrl w)).

Definition showsCancelButton (w : World) : bool := isProcessing (processing w).

Definition showsDownload (w : World) : bool :=
  is_some (processedVideoUrl w) && negb (isProcessing (processing w)).

Definition recorder_live (w : World) : bool :=
  match mediaRecorderRef (refs w) with
  | Some rec => negb (is_inactive (state rec))
  | None => false
  end.

Definition has_tasks (w : World) : bool :=
  match tasks (loop w) with [] => false | _ => true end.

Definition has_timers (w : World) : bool :=
  match timers (loop w) with [] => false | _ => true end.

(** The model follows one call of [processVideo] at a time: an earlier call
    is in flight while it is suspended at an [await], while its recorder is
    not inactive, or while a recorder task or its timer is pending. *)
Definition in_flight (w : World) : bool :=
  match phase (run w) with
  | AwaitAudio | AwaitMetadata | AwaitPlay => true
  | _ => false
  end
  || recorder_live w || has_tasks w || has_timers w.

(** One event; [None] when the event cannot occur in [w] (the control is
    not rendered, nothing is pending, the awaited object does not exist, or
    a second call of [processVideo] would overlap the first). *)
Definition step (e : event) (w : World) : option World :=
  match e with
  | Upload file =>
      if is_some (videoUrl w) then None else Some (handleFileUpload file w)
  | ClickProcess video =>
      if showsProcessButton w && negb (in_flight w)
      then Some (processVideo_start video w) else None
  | ClickCancel =>
      if showsCancelButton w then Some (cancelProcessing w) else None
  | AudioCanPlayThrough =>
      match phase (run w) with
      | NotRunning => None
      | _ => Some (settle_audioReady Fulfilled w)
      end
  | AudioError =>
      match phase (run w) with
      | NotRunning => None
      | _ => Some (settle_audioReady Rejected w)
      end
  | TimerFired =>
      let l := loop w in
      match timers l with
      | [] => None
      | _ :: rest =>
          Some (settle_audioReady Fulfilled
                  (with_loop (mkLoop (scheduledFrame l) (nextHandle l) rest
                                (tasks l)) w))
      end
  | LoadedMetadata =>
      match phase (run w) with
      | AwaitMetadata => Some (processVideo_record w)
      | _ => None
      end
  | PlayResolved now =>
      match phase (run w) with
      | AwaitPlay => Some (processVideo_loop now w)
      | _ => None
      end
  | PlayRejected =>
      match phase (run w) with
      | AwaitPlay => Some (with_phase Threw w)
      | _ => None
      end
  | RecorderChunk data =>
      match mediaRecorderRef (refs w) with
      | Some rec =>
          match state rec with
          | recording => Some (ondataavailable (mkBlob data (mimeType rec)) w)
          | _ => None
          end
      | None => None
      end
  | AnimationFrame v now =>
      let l := loop w in
      match phase (run w), scheduledFrame l with
      | Rendering, Some _ =>
          Some (renderFrame v now
                  (with_loop (mkLoop None (nextHandle l) (timers l) (tasks l))
                     w))
      | _, _ => None
      end
  | RunTask =>
      let l := loop w in
      match tasks l with
      | [] => None
      | t :: rest =>
          Some (run_task t
                  (with_loop (mkLoop (scheduledFrame l) (nextHandle l)
                                (timers l) rest) w))
      end
  end.

Fixpoint run_events (es : list event) (w : World) : option World :=
  match es with
  | [] => Some w
  | e :: rest =>
      match step e w with
      | Some w' => run_events rest w'
      | None => None
      end
  end.

(* ----------------------------------------------------------------- *)
(** *** Delivery order of the audio signals and the fallback timer

    [ready_at] and [error_at] are the times (ms after the promise is
    created) at which the audio element signals [canplaythrough] or
    [error], [None] when it never does; the timer fires at its delay.
    Events are delivered by increasing time (the timer first among events
    of the same time). *)

Fixpoint insert_timed (x : Z * event) (l : list (Z * event)) : list (Z * event) :=
  match l with
  | [] => [x]
  | y :: rest =>
      if Z.ltb (fst x) (fst y) then x :: l else y :: insert_timed x rest
  end.

Definition timed (at_ms : option Z) (e : event) : list (Z * event) :=
  match at_ms with Some t => [(t, e)] | None => [] end.

Definition audio_timeline (ready_at error_at : option Z) : list event :=
  map snd
    (fold_right insert_timed []
       (timed ready_at AudioCanPlayThrough ++ timed error_at AudioError
          ++ [(audioTimeoutMs, TimerFired)])).




(* ----------------------------------------------------------------- *)
(** *** Orders on numbers and session predicates *)

(** [a <= b] on numbers; false when either is NaN. *)
Definition num_le (a b : number) : Prop :=
  match a, b with
  | Fin x, Fin y => x <= y
  | Infinity true, Fin _ | Fin _, Infinity false => True
  | Infinity s, Infinity t => s = t \/ (s = true /\ t = false)
  | _, _ => False
  end.


(** A session that is running: [processVideo] is past its awaits, the page
    shows the session as active, the recorder is recording, no recorder
    task is queued and no artifact is published. *)
Definition Running (w : World) : Prop :=
  phase (run w) = Rendering
  /\ isProcessing (processing w) = true
  /\ (exists rec, mediaRecorderRef (refs w) = Some rec /\ state rec = recording)
  /\ tasks (loop w) = []
  /\ processedVideoUrl w = None.

(** A running session whose render loop is scheduled and whose duration
    is the finite number [d]. *)
Definition Playing (d : R) (w : World) : Prop :=
  Running w
  /\ (exists h, scheduledFrame (loop w) = Some h)
  /\ run_duration (run w) = Fin d.

(** How the render loop of a session ends: the callback finds the video
    ended, or the user cancels. *)
Inductive ending : Type :=
| Completes (v : VideoSnapshot) (now : number)
| Cancels.

Definition ending_event (e : ending) : event :=
  match e with
  | Completes v now => AnimationFrame v now
  | Cancels => ClickCancel
  end.

(** The events of a session from the start of its render loop: the frames
    rendered while the video plays, the ending, and the two tasks the
    stopped recorder has queued. *)
Definition session_events (frames : list (VideoSnapshot * number)) (e : ending)
  : list event :=
  map (fun f => AnimationFrame (fst f) (snd f)) frames
  ++ [ending_event e; RunTask; RunTask].

(** The values of [progress] seen along a run: in [w] and after each event
    (the run stops at an event that cannot occur). *)
Fixpoint progress_trace (es : list event) (w : World) : list number :=
  progress (processing w)
  :: match es with
     | [] => []
     | e :: rest =>
         match step e w with
         | Some w' => progress_trace rest w'
         | None => []
         end
     end.

Fixpoint nondecreasing (l : list number) : Prop :=
  match l with
  | a :: (b :: _) as rest => num_le a b /\ nondecreasing rest
  | _ => True
  end.

(** The frames are taken while the video plays, at current times that do
    not decrease, starting at or after [lo] and ending at or before [d]. *)
Fixpoint clock_within (lo d : R) (frames : list (VideoSnapshot * number)) : Prop :=
  match frames with
  | [] => lo <= d
  | f :: rest =>
      paused (fst f) = false /\ ended (fst f) = false
      /\ exists ct, currentTime (fst f) = Fin ct /\ lo <= ct
                    /\ clock_within ct d rest
  end.

(** The events between the click on Process and the start of the render
    loop; a start-up fails at one of them ([AudioError], [PlayRejected], or
    the recorder refusing the type once the audio wait is over). *)
Definition startup_event (e : event) : bool :=
  match e with
  | AudioCanPlayThrough | AudioError | TimerFired | LoadedMetadata
  | PlayResolved _ | PlayRejected => true
  | _ => false
  end.

Definition ends_session (e : ending) : Prop :=
  match e with
  | Completes v _ => ended v = true
  | Cancels => True
  end.

(* ----------------------------------------------------------------- *)
(** *** Sample inputs: a 10-second 1280x720 video on a host that supports
    every type, and the events of a session on it *)

Definition sample_file : Blob := mkBlob [Byte.x00; Byte.x01] "video/mp4".

Definition sample_video : VideoElement := mkVideo (Fin 1280) (Fin 720) (Fin 10).

Definition black_frame : point -> pixel := fun _ => rgba 0 0 0 1.

Definition playing_at (ct : R) : VideoSnapshot :=
  mkSnapshot (Fin ct) (Fin 10) false false black_frame.

Definition at_end : VideoSnapshot :=
  mkSnapshot (Fin 10) (Fin 10) true true black_frame.

(** Upload, click on Process, the audio never signals and the timer fires,
    metadata arrives, playback starts at time 0. *)
Definition sample_startup : list event :=
  [Upload (Some sample_file); ClickProcess sample_video; TimerFired;
   LoadedMetadata; PlayResolved (Fin 0)].

(** Then a frame at 2 s and a chunk of recorded data. *)
Definition sample_running : list event :=
  sample_startup
  ++ [AnimationFrame (playing_at 2) (Fin 2000); RecorderChunk [Byte.x2a]].

(** The same session played to its end. *)
Definition sample_completed : list event :=
  sample_running ++ [AnimationFrame at_end (Fin 10000); RunTask; RunTask].

Definition all_supported : string -> bool := fun _ => true.

Definition world_after (es : list event) : World :=
  match run_events es (initialWorld all_supported) with
  | Some w => w
  | None => initialWorld all_supported
  end.

(** What holds of the encoding type in every state the component reaches
    on a host with support predicate [sup]: the recorder in the ref and the
    published artifact carry the selected type, and so does the [mimeType]
    variable of the run from the moment the recorder exists. *)
Definition mime_invariant (sup : string -> bool) (w : World) : Prop :=
  isTypeSupported w = sup
  /\ (forall rec, mediaRecorderRef (refs w) = Some rec ->
      mimeType rec = selectMimeType sup)
  /\ (forall b, processedVideoUrl w = Some (createObjectURL b) ->
      blob_type b = selectMimeType sup)
  /\ (phase (run w) = AwaitMetadata \/ recorder_live w = true
      \/ has_tasks w = true ->
      run_mimeType (run w) = selectMimeType sup).

(* ----------------------------------------------------------------- *)
(** *** Further parts of the component: the time display, the play
    button, and what a session owes its resources *)

(** [a < b] on numbers: false when either side is NaN. *)
Definition js_ltb (a b : number) : bool :=
  match a, b with
  | Fin x, Fin y => Rltb x y
  | Infinity true, Fin _ | Fin _, Infinity false => true
  | Infinity true, Infinity false => true
  | _, _ => false
  end.

(** Rounding towards zero. *)
Definition Rtrunc (x : R) : Z := if Rleb 0 x then Zfloor x else Zceil x.

(** [a % b]: the remainder has the sign of the dividend; NaN when the
    dividend is not finite or the divisor is zero or NaN; the dividend when
    the divisor is infinite. *)
Definition js_rem (a b : number) : number :=
  match a, b with
  | Fin x, Fin y => if Rzero y then NaN else Fin (x - y * IZR (Rtrunc (x / y)))
  | Fin x, Infinity _ => Fin x
  | _, _ => NaN
  end.

(** The pieces of a template literal: its text and the numbers it
    interpolates (their decimal rendering is left to the host). *)
Inductive piece : Type :=
| Text (s : string)
| Num (n : number).

(** [formatTime]. *)
Definition formatTime (seconds : number) : list piece :=
  if js_ltb seconds (Fin 60) then [Num seconds; Text "s"]
  else
    let mins := Math.floor (seconds / Fin 60)%js in
    let secs := js_rem seconds (Fin 60) in
    [Num mins; Text "m "; Num secs; Text "s"].



(** The rotating line of [drawLines]. *)
Definition rotating_line (width height progress : number) : list segment :=
  let centerX := (width / Fin 2)%js in
  let centerY := (height / Fin 2)%js in
  let radius := (Math.min width height * Fin (4 / 10))%js in
  let angle := (progress * Math.PI * Fin 2)%js in
  line_between centerX centerY
    (centerX + Math.cos angle * radius)%js
    (centerY + Math.sin angle * radius)%js.

(** A point of the canvas rectangle. *)
Definition on_canvas (w h : R) (pt : point) : Prop :=
  0 <= fst pt <= w /\ 0 <= snd pt <= h.

(** Without a loaded video nothing has been started: no session, no
    recorder, no queued task, no artifact. *)
Definition nothing_without_video (w : World) : Prop :=
  videoUrl w = None ->
  processedVideoUrl w = None
  /\ isProcessing (processing w) = false
  /\ mediaRecorderRef (refs w) = None
  /\ tasks (loop w) = []
  /\ phase (run w) = NotRunning.


(* ================================================================= *)
(** * Properties *)

(** ** Tactics *)

Ltac open_world w :=
  destruct w as [?vu ?pvu ?st ?pr ?cv [?ar ?mr ?ch ?sr ?ae ?ac]
                   [?ph ?aud ?dur ?mt ?t0] [?sf ?nh ?tm ?tk] ?its].

(** Evaluate the handlers on a world given by its fields; numbers and the
    canvas stay as they are. *)
Ltac eval_handlers :=
  cbv beta iota zeta delta
    [step showsProcessButton showsCancelButton in_flight
     recorder_live has_tasks has_timers handleFileUpload processVideo_start
     processVideo_setup processVideo_record processVideo_loop with_phase
     settle_audioReady cancelProcessing stop_recorder stop_stream
     stop_audio release_audioContext cancelAnimationFrame
     requestAnimationFrame enqueue renderFrame run_task ondataavailable
     onstop close_audioContext setProcessing setProcessedVideoUrl
     with_videoUrl with_canvas with_refs with_run with_loop
     MediaRecorder_stop MediaRecorder_start is_some is_inactive option_map
     videoUrl processedVideoUrl settings processing canvas refs run loop
     isTypeSupported animationRef mediaRecorderRef recordedChunksRef
     streamRef audioElementRef audioContextRef phase audioReady
     run_duration run_mimeType startTime scheduledFrame nextHandle timers
     tasks getContext canvas_width canvas_height
     andb orb negb fst snd mime_invariant Running] in *;
  simpl in *.

(** Evaluate a run of the sample session. *)
Ltac eval_session :=
  cbv beta iota zeta delta
    [run_events sample_completed sample_startup
     sample_running world_after
     sample_video sample_file playing_at at_end initialWorld all_supported
     initialProcessing selectMimeType frameState stop_tracks targetFps
     step showsProcessButton showsCancelButton in_flight
     recorder_live has_tasks has_timers handleFileUpload processVideo_start
     processVideo_setup processVideo_record processVideo_loop with_phase
     settle_audioReady cancelProcessing stop_recorder stop_stream
     stop_audio release_audioContext cancelAnimationFrame
     requestAnimationFrame enqueue renderFrame run_task ondataavailable
     onstop close_audioContext setProcessing setProcessedVideoUrl
     with_videoUrl with_canvas with_refs with_run with_loop
     MediaRecorder_stop MediaRecorder_start is_some is_inactive option_map
     videoUrl processedVideoUrl settings processing canvas refs run loop
     isTypeSupported animationRef mediaRecorderRef recordedChunksRef
     streamRef audioElementRef audioContextRef phase audioReady
     run_duration run_mimeType startTime scheduledFrame nextHandle timers
     tasks getContext canvas_width canvas_height
     state mimeType gathered timeslice videoBitsPerSecond audioBitsPerSecond
     isProcessing progress fps processedFrames totalFrames
     estimatedTimeRemaining paused ended currentTime v_duration frame
     videoWidth videoHeight duration
     blob_size blob_data blob_type new_Blob flat_map List.length app
     Nat.ltb Nat.leb Pos.eqb Pos.succ
     andb orb negb fst snd].

(** Case analysis on the tests a handler makes, read off hypothesis [H]. *)
Ltac handler_cases H :=
  repeat match type of H with
         | context [match ?x with _ => _ end] =>
             lazymatch x with
             | context [match _ with _ => _ end] => fail
             | _ => destruct x eqn:?; simpl in H; try discriminate H
             end
         end.


(** ** Numbers *)

Lemma Rzero_true (r : R) : r = 0 -> Rzero r = true.
Proof. intros H. unfold Rzero. destruct (Req_dec_T r 0); [reflexivity | contradiction]. Qed.

Lemma Rzero_false (r : R) : r <> 0 -> Rzero r = false.
Proof. intros H. unfold Rzero. destruct (Req_dec_T r 0); [contradiction | reflexivity]. Qed.

Lemma Rleb_true (a b : R) : a <= b -> Rleb a b = true.
Proof. intros H. unfold Rleb. destruct (Rle_dec a b); [reflexivity | contradiction]. Qed.

Lemma Rleb_false (a b : R) : b < a -> Rleb a b = false.
Proof. intros H. unfold Rleb. destruct (Rle_dec a b); [lra | reflexivity]. Qed.

Lemma Rltb_true (a b : R) : a < b -> Rltb a b = true.
Proof. intros H. unfold Rltb. destruct (Rlt_dec a b); [reflexivity | contradiction]. Qed.

Lemma Rltb_false (a b : R) : b <= a -> Rltb a b = false.
Proof. intros H. unfold Rltb. destruct (Rlt_dec a b); [lra | reflexivity]. Qed.

Lemma Fin_inj (a b : R) : Fin a = Fin b -> a = b.
Proof. intros H. injection H. trivial. Qed.

Lemma div_Fin (x y : R) : y <> 0 -> (Fin x / Fin y)%js = Fin (x / y).
Proof. intros H. unfold JS.div. now rewrite (Rzero_false y H). Qed.

Lemma add_Fin (x y : R) : (Fin x + Fin y)%js = Fin (x + y).
Proof. reflexivity. Qed.

Lemma sub_Fin (x y : R) : (Fin x - Fin y)%js = Fin (x - y).
Proof. reflexivity. Qed.

Lemma mul_Fin (x y : R) : (Fin x * Fin y)%js = Fin (x * y).
Proof. reflexivity. Qed.

Lemma max_Fin (x y : R) : Math.max (Fin x) (Fin y) = Fin (Rmax x y).
Proof. reflexivity. Qed.

Lemma min_Fin (x y : R) : Math.min (Fin x) (Fin y) = Fin (Rmin x y).
Proof. reflexivity. Qed.

Lemma round_Fin (x : R) : Math.round (Fin x) = Fin (IZR (Zfloor (x + / 2))).
Proof. reflexivity. Qed.

Lemma floor_Fin (x : R) : Math.floor (Fin x) = Fin (IZR (Zfloor x)).
Proof. reflexivity. Qed.

Lemma ceil_Fin (x : R) : Math.ceil (Fin x) = Fin (IZR (Zceil x)).
Proof. reflexivity. Qed.

Create Rewrite HintDb js.
#[local] Hint Rewrite add_Fin sub_Fin mul_Fin max_Fin min_Fin round_Fin
  floor_Fin ceil_Fin : js.

Lemma or_else_zero (b : number) : (Fin 0 || b)%js = b.
Proof. unfold or_else, toBoolean. now rewrite (Rzero_true 0 eq_refl). Qed.

Lemma or_else_nonzero (d : R) (b : number) : d <> 0 -> (Fin d || b)%js = Fin d.
Proof. intros H. unfold or_else, toBoolean. now rewrite (Rzero_false d H). Qed.

Lemma div_zero_zero : (Fin 0 / Fin 0)%js = NaN.
Proof. unfold JS.div. now rewrite (Rzero_true 0 eq_refl). Qed.

Lemma mul_NaN_l (b : number) : (NaN * b)%js = NaN.
Proof. reflexivity. Qed.

#[local] Opaque JS.add JS.sub JS.mul JS.div JS.or_else Math.max Math.min
  Math.round Math.floor Math.ceil.

Lemma round_bounds (x : R) :
  IZR (Zfloor (x + / 2)) - / 2 <= x < IZR (Zfloor (x + / 2)) + / 2.
Proof. pose proof (Zfloor_bound (x + / 2)). lra. Qed.

(** Solve a goal [Zfloor x = z] or [Zceil x = z] at concrete reals. *)
Ltac floor_at := first [apply Zfloor_eq | apply Zceil_eq]; simpl; lra.

(* ----------------------------------------------------------------- *)
(** ** The progress handed to the overlay (C3) *)

(** C3, as the code has it.  When [duration] is 0 the guard
    [duration || 1] replaces the divisor by 1: nothing is divided by zero and
    the progress is [currentTime / 1 = currentTime], a finite number and not
    NaN (it is not the constant 1).  For every duration [d > 0] the progress
    is [currentTime / d].  The preview loop and the processing loop share the
    expression. *)
Theorem frame_progress_guarded (ct d : R) (Hd : 0 <= d) :
  frame_progress (Fin ct) (Fin d) = Fin (if Req_dec_T d 0 then ct else ct / d)
  /\ isNaN (frame_progress (Fin ct) (Fin d)) = false
  /\ isFinite (frame_progress (Fin ct) (Fin d)) = true.
Proof.
  assert (E : frame_progress (Fin ct) (Fin d)
              = Fin (if Req_dec_T d 0 then ct else ct / d)).
  { unfold frame_progress. destruct (Req_dec_T d 0) as [-> | Hnz].
    - rewrite or_else_zero, div_Fin by lra. f_equal. field.
    - rewrite or_else_nonzero, div_Fin by assumption. reflexivity. }
  rewrite E. repeat split.
Qed.

Lemma frame_progress_guarded_witness :
  frame_progress (Fin 5) (Fin 0) = Fin 5
  /\ frame_progress (Fin 5) (Fin 10) = Fin (5 / 10).
Proof.
  split.
  - destruct (frame_progress_guarded 5 0 ltac:(lra)) as [E _].
    rewrite E. destruct (Req_dec_T 0 0); [reflexivity | contradiction].
  - destruct (frame_progress_guarded 5 10 ltac:(lra)) as [E _].
    rewrite E. destruct (Req_dec_T 10 0); [lra | reflexivity].
Defined.

(** C3 as stated fails: with [duration = 0] at [currentTime = 0] the
    progress is 0, not 1. *)
Lemma frame_progress_zero_duration_not_one :
  frame_progress (Fin 0) (Fin 0) = Fin 0
  /\ frame_progress (Fin 0) (Fin 0) <> Fin 1.
Proof.
  assert (E : frame_progress (Fin 0) (Fin 0) = Fin 0).
  { unfold frame_progress. rewrite or_else_zero, div_Fin by lra.
    f_equal. field. }
  split; [exact E |].
  rewrite E. intros H. apply Fin_inj in H. lra.
Qed.

(** Both render loops hand this progress to [drawLines]. *)
Lemma renderFrame_overlay_progress (v : VideoSnapshot) (now : number)
    (w : World) :
  paused v = false -> ended v = false ->
  getContext (canvas (renderFrame v now w))
  = drawLines (settings w)
      (drawImage (frame v) (Fin 0) (Fin 0) (canvas_width (canvas w))
         (canvas_height (canvas w)) (getContext (canvas w)))
      (canvas_width (canvas w)) (canvas_height (canvas w))
      (frame_progress (currentTime v) (v_duration v)).
Proof.
  intros Hp He. unfold renderFrame. rewrite Hp, He. reflexivity.
Qed.

Lemma previewFrame_overlay_progress (v : VideoSnapshot) (vw vh : R)
    (w : World) :
  vw <> 0 -> vh <> 0 ->
  getContext (canvas (fst (previewFrame v (Fin vw) (Fin vh) w)))
  = drawLines (settings w)
      (drawImage (frame v) (Fin 0) (Fin 0) (Fin vw) (Fin vh) reset)
      (Fin vw) (Fin vh) (frame_progress (currentTime v) (v_duration v)).
Proof.
  intros Hw Hh. unfold previewFrame, toBoolean.
  rewrite (Rzero_false vw Hw), (Rzero_false vh Hh). simpl.
  destruct (negb (paused v) && negb (ended v)); reflexivity.
Qed.

Example frame_progress_unknown_duration :
  frame_progress (Fin 3) NaN = Fin 3.
Proof.
  unfold frame_progress.
  replace (NaN || Fin 1)%js with (Fin 1) by reflexivity.
  rewrite div_Fin by lra. f_equal. field.
Qed.

(* ----------------------------------------------------------------- *)
(** ** The state published on every frame (C4, C10) *)

Lemma processing_requestAnimationFrame (w : World) :
  processing (requestAnimationFrame w) = processing w.
Proof. reflexivity. Qed.

(** On a frame that is neither paused nor ended [renderFrame] publishes
    [frameState] of the current time, the duration read at the start of
    [processVideo] and the seconds elapsed since the loop started. *)
Lemma renderFrame_processing (v : VideoSnapshot) (now : number) (w : World) :
  paused v = false -> ended v = false ->
  processing (renderFrame v now w)
  = frameState (currentTime v) (run_duration (run w))
      ((now - startTime (run w)) / Fin 1000)%js.
Proof.
  intros Hp He. unfold renderFrame. rewrite Hp, He. reflexivity.
Qed.

(** C4, as the code has it.  On every iteration of the processing loop
    (playback neither paused nor ended; finite current time, duration > 0,
    positive elapsed time) the published state has
    [progress = currentTime / duration * 100],
    [processedFrames = floor (currentTime * 30)],
    [totalFrames = ceil duration], and the two remaining fields are rounded:
    [fps] is [currentTime / elapsed] rounded to one decimal (so within 0.05
    of it) and [estimatedTimeRemaining] is [max 0 (duration - currentTime)]
    rounded to the nearest integer (so within 0.5 of it). *)
Theorem renderFrame_publishes (v : VideoSnapshot) (w : World) (ct d t0 t : R)
    (Hp : paused v = false) (He : ended v = false)
    (Hct : currentTime v = Fin ct)
    (Hdur : run_duration (run w) = Fin d) (Hd : 0 < d)
    (Hstart : startTime (run w) = Fin t0) (Helapsed : t0 < t) :
  let elapsed := (t - t0) / 1000 in
  let p := processing (renderFrame v (Fin t) w) in
  let f := Zfloor (ct / elapsed * 10 + / 2) in
  let eta := Zfloor (Rmax 0 (d - ct) + / 2) in
  isProcessing p = true
  /\ progress p = Fin (ct / d * 100)
  /\ processedFrames p = Fin (IZR (Zfloor (ct * 30)))
  /\ totalFrames p = Fin (IZR (Zceil d))
  /\ fps p = Fin (IZR f / 10)
  /\ estimatedTimeRemaining p = Fin (IZR eta)
  /\ Rabs (IZR f / 10 - ct / elapsed) <= / 20
  /\ Rabs (IZR eta - Rmax 0 (d - ct)) <= / 2.
Proof.
  intros elapsed p f eta.
  assert (Hel : elapsed <> 0) by (unfold elapsed; lra).
  subst p. rewrite (renderFrame_processing v (Fin t) w Hp He).
  rewrite Hct, Hdur, Hstart. unfold frameState, targetFps. simpl.
  autorewrite with js. rewrite (div_Fin (t - t0)) by lra. fold elapsed.
  rewrite !div_Fin by lra. autorewrite with js. rewrite div_Fin by lra.
  fold f. fold eta.
  repeat split.
  - pose proof (round_bounds (ct / elapsed * 10)) as B. fold f in B.
    apply Rabs_le. lra.
  - pose proof (round_bounds (Rmax 0 (d - ct))) as B. fold eta in B.
    apply Rabs_le. lra.
Qed.

(** The published progress itself is not guarded: at duration 0 (and
    current time 0) it is NaN. *)
Example frameState_zero_duration (elapsed : number) :
  progress (frameState (Fin 0) (Fin 0) elapsed) = NaN.
Proof.
  unfold frameState. simpl. now rewrite div_zero_zero, mul_NaN_l.
Qed.

(** [Math.round] at the two values used below. *)
Lemma Zfloor_3 : Zfloor (1 / 2 / 2 * 10 + / 2) = 3%Z.
Proof. floor_at. Qed.

Lemma Zfloor_10 : Zfloor (Rmax 0 (10 - 1 / 2) + / 2) = 10%Z.
Proof.
  rewrite Rmax_right by lra. floor_at.
Qed.

(** C4 as stated fails at [currentTime = 0.5], [duration = 10],
    [elapsed = 2]: the published [fps] is 0.3, not 0.25, and the published
    [estimatedTimeRemaining] is 10, not 9.5. *)
Lemma frameState_rounds :
  let p := frameState (Fin (1 / 2)) (Fin 10) (Fin 2) in
  fps p = Fin (3 / 10)
  /\ fps p <> (Fin (1 / 2) / Fin 2)%js
  /\ estimatedTimeRemaining p = Fin 10
  /\ estimatedTimeRemaining p <> Math.max (Fin 0) (Fin 10 - Fin (1 / 2))%js.
Proof.
  unfold frameState. simpl.
  autorewrite with js. rewrite !div_Fin by lra.
  autorewrite with js. rewrite div_Fin by lra.
  rewrite Zfloor_3, Zfloor_10.
  repeat split.
  - intros H. apply Fin_inj in H. lra.
  - intros H. apply Fin_inj in H. rewrite Rmax_right in H by lra. lra.
Qed.

Lemma renderFrame_publishes_witness :
  let p := processing (renderFrame (playing_at 2) (Fin 2000)
                         (world_after sample_startup)) in
  progress p = Fin (2 / 10 * 100)
  /\ processedFrames p = Fin (IZR (Zfloor (2 * 30)))
  /\ Rabs (IZR (Zfloor (2 / ((2000 - 0) / 1000) * 10 + / 2)) / 10
           - 2 / ((2000 - 0) / 1000)) <= / 20.
Proof.
  assert (Hdur : run_duration (run (world_after sample_startup)) = Fin 10)
    by (eval_session; reflexivity).
  assert (Hstart : startTime (run (world_after sample_startup)) = Fin 0)
    by (eval_session; reflexivity).
  destruct (renderFrame_publishes (playing_at 2) (world_after sample_startup)
              2 10 0 2000 eq_refl eq_refl eq_refl Hdur ltac:(lra) Hstart
              ltac:(lra))
    as (_ & Hp & Hf & _ & _ & _ & Hfps & _).
  split; [exact Hp | split; [exact Hf | exact Hfps]].
Defined.





(* ----------------------------------------------------------------- *)
(** ** Upload (C9) *)

(** C9.  Uploading a file publishes its URL, clears the processed-video
    URL and sets [progress] and [processedFrames] to 0; the other fields of
    the processing state, the line settings, the refs, the run and the
    canvas are left as they are. *)
Theorem upload_resets_progress_only (f : Blob) (w : World) :
  let w' := handleFileUpload (Some f) w in
  videoUrl w' = Some (createObjectURL f)
  /\ processedVideoUrl w' = None
  /\ progress (processing w') = Fin 0
  /\ processedFrames (processing w') = Fin 0
  /\ isProcessing (processing w') = isProcessing (processing w)
  /\ fps (processing w') = fps (processing w)
  /\ totalFrames (processing w') = totalFrames (processing w)
  /\ estimatedTimeRemaining (processing w')
     = estimatedTimeRemaining (processing w)
  /\ settings w' = settings w
  /\ refs w' = refs w /\ run w' = run w /\ canvas w' = canvas w.
Proof. repeat split. Qed.

(* ----------------------------------------------------------------- *)
(** ** Encoding type (C8) *)

Lemma selectMimeType_first_supported (sup : string -> bool) :
  selectMimeType sup = hd webm (filter sup preference).
Proof.
  unfold selectMimeType, preference. simpl.
  destruct (sup vp9_opus); [reflexivity |].
  destruct (sup vp8_opus); [reflexivity |].
  destruct (sup webm); reflexivity.
Qed.

Example selectMimeType_vp8_only :
  selectMimeType (fun t => String.eqb t vp8_opus) = vp8_opus.
Proof. reflexivity. Qed.

Example selectMimeType_none_supported :
  selectMimeType (fun _ => false) = webm.
Proof. reflexivity. Qed.

Lemma MediaRecorder_stop_mimeType (r : MediaRecorder) :
  mimeType (fst (MediaRecorder_stop r)) = mimeType r.
Proof. unfold MediaRecorder_stop. destruct (is_inactive (state r)); reflexivity. Qed.

Lemma mime_invariant_initial (sup : string -> bool) :
  mime_invariant sup (initialWorld sup).
Proof.
  repeat split; simpl; try discriminate.
  intros [H | [H | H]]; discriminate.
Qed.

Lemma mime_invariant_step (sup : string -> bool) (e : event) (w w' : World) :
  mime_invariant sup w -> step e w = Some w' -> mime_invariant sup w'.
Proof.
  intros Hinv Hstep.
  open_world w. destruct e; eval_handlers;
    destruct Hinv as (-> & Hrec & Hart & Hrun);
    handler_cases Hstep; injection Hstep as <-; simpl;
    (split; [reflexivity |]);
    (split; [intros rec' Hr; try (injection Hr as <-; simpl); eauto |]);
    (split; [intros b' Hb; try discriminate Hb;
             try (injection Hb as <-; simpl); eauto |]);
    try (intros [H | [H | H]]; try discriminate H; simpl in *; subst;
         repeat match goal with
                | E : state _ = _ |- _ => progress (rewrite E in * )
                end;
         simpl in *; try discriminate H; try reflexivity;
         try rewrite app_nil_r in H;
         try (apply Hrun; simpl; auto; fail)).
Qed.

Lemma run_events_cons (e : event) (es : list event) (w : World) :
  run_events (e :: es) w
  = match step e w with Some w' => run_events es w' | None => None end.
Proof. reflexivity. Qed.

Lemma run_events_app (es1 es2 : list event) :
  forall w, run_events (es1 ++ es2) w
            = match run_events es1 w with
              | Some w' => run_events es2 w'
              | None => None
              end.
Proof.
  induction es1 as [| e es1 IH]; intros w; [reflexivity |].
  simpl. destruct (step e w); [apply IH | reflexivity].
Qed.

Lemma mime_invariant_reachable (sup : string -> bool) (es : list event) :
  forall w w', mime_invariant sup w -> run_events es w = Some w' ->
               mime_invariant sup w'.
Proof.
  induction es as [| e es IH]; intros w w' Hinv Hrun; simpl in Hrun.
  - injection Hrun as <-. exact Hinv.
  - destruct (step e w) as [w1 |] eqn:Hstep; [| discriminate].
    apply (IH w1 w'); [| exact Hrun].
    exact (mime_invariant_step sup e w w1 Hinv Hstep).
Qed.

(** C8.  The encoding type is the first supported one in the order
    vp9+opus, vp8+opus, plain webm (plain webm also when none is reported
    as supported), and in every state the component reaches the recorder
    is configured with that type and the published artifact is a blob of
    that type. *)
Theorem encoding_type_by_preference (sup : string -> bool) (es : list event)
    (w : World) (Hreach : run_events es (initialWorld sup) = Some w) :
  preference = [vp9_opus; vp8_opus; webm]
  /\ selectMimeType sup = hd webm (filter sup preference)
  /\ (forall rec, mediaRecorderRef (refs w) = Some rec ->
      mimeType rec = selectMimeType sup)
  /\ (forall b, processedVideoUrl w = Some (createObjectURL b) ->
      blob_type b = selectMimeType sup).
Proof.
  split; [reflexivity |].
  split; [apply selectMimeType_first_supported |].
  destruct (mime_invariant_reachable sup es _ w
              (mime_invariant_initial sup) Hreach) as (_ & Hrec & Hart & _).
  split; assumption.
Qed.

Lemma encoding_type_by_preference_witness :
  exists w,
    run_events sample_completed (initialWorld all_supported) = Some w
    /\ selectMimeType all_supported = vp9_opus
    /\ processedVideoUrl w
       = Some (createObjectURL (mkBlob [Byte.x2a] vp9_opus)).
Proof.
  assert (E : exists w,
             run_events sample_completed (initialWorld all_supported) = Some w
             /\ processedVideoUrl w
                = Some (createObjectURL (mkBlob [Byte.x2a] vp9_opus))).
  { eval_session. eexists. split; reflexivity. }
  destruct E as (w & Hreach & Hurl). exists w.
  destruct (encoding_type_by_preference all_supported sample_completed w Hreach)
    as (_ & _ & _ & Hart).
  split; [exact Hreach | split; [| exact Hurl]].
  symmetry. exact (Hart _ Hurl).
Defined.

(* ----------------------------------------------------------------- *)
(** ** Cancellation (C1) *)

(** C1, as the code has it.  Cancelling a running session makes the
    processing state inactive at once, and it stays inactive; but
    [cancelProcessing] stops the recorder, so the recorder's [onstop]
    handler runs as it does at the end of playback: it publishes an artifact
    built from the chunks recorded so far (typed with the selected type) and
    sets [progress] to 100.  The page then shows the download and not the
    Process button. *)
Theorem cancel_running_session (w : World) (Hrun : Running w) :
  exists w1 w2,
    step ClickCancel w = Some w1
    /\ isProcessing (processing w1) = false
    /\ progress (processing w1) = progress (processing w)
    /\ run_events [RunTask; RunTask] w1 = Some w2
    /\ isProcessing (processing w2) = false
    /\ processedVideoUrl w2
       = Some (createObjectURL
                 (new_Blob (recordedChunksRef (refs w2)) (run_mimeType (run w))))
    /\ progress (processing w2) = Fin 100
    /\ showsDownload w2 = true
    /\ showsProcessButton w2 = false.
Proof.
  destruct Hrun as (Hph & Hproc & (rec & Hrec & Hst) & Htasks & Hurl).
  destruct rec as [rs rm rv ra rt rg]. simpl in Hst. subst rs.
  open_world w. eval_handlers. subst.
  rewrite Hproc. simpl.
  destruct ar as [h |]; [destruct sf as [h' |]; [destruct (Pos.eqb h h') |] |];
    destruct rg; simpl;
    (do 2 eexists; split; [reflexivity |]; simpl;
     split; [reflexivity |]; split; [reflexivity |];
     (split; [reflexivity |]); simpl; repeat split;
     try (destruct vu; reflexivity)).
Qed.

Lemma cancel_running_session_witness :
  Running (world_after sample_running)
  /\ exists w2,
       run_events [ClickCancel; RunTask; RunTask] (world_after sample_running)
       = Some w2
       /\ isProcessing (processing w2) = false
       /\ progress (processing w2) = Fin 100.
Proof.
  assert (R : Running (world_after sample_running)).
  { eval_session. repeat split. eexists. split; reflexivity. }
  split; [exact R |].
  destruct (cancel_running_session _ R)
    as (w1 & w2 & Hc & _ & _ & Ht & Hp & _ & Hprog & _).
  exists w2. split; [| split; assumption].
  rewrite run_events_cons, Hc. exact Ht.
Defined.

(** C1 as stated fails on the sample session: it is running when it is
    cancelled, and once the recorder's tasks have run an artifact is
    published (the chunk recorded before the cancellation), progress is 100
    and the Process button is not shown. *)
Lemma cancelled_session_publishes_artifact :
  Running (world_after sample_running)
  /\ exists w,
       run_events [ClickCancel; RunTask; RunTask] (world_after sample_running)
       = Some w
       /\ processedVideoUrl w
          = Some (createObjectURL (mkBlob [Byte.x2a] vp9_opus))
       /\ processedVideoUrl w <> None
       /\ progress (processing w) = Fin 100
       /\ showsDownload w = true
       /\ showsProcessButton w = false.
Proof.
  split.
  - eval_session. repeat split. eexists. split; reflexivity.
  - eval_session. eexists. split; [reflexivity |].
    repeat split. discriminate.
Qed.

(* ----------------------------------------------------------------- *)
(** ** Progress over a session (C2) *)

Lemma progress_trace_cons (e : event) (es : list event) (w w1 : World) :
  step e w = Some w1 ->
  progress_trace (e :: es) w = progress (processing w) :: progress_trace es w1.
Proof. intros H. simpl. now rewrite H. Qed.

Lemma nondecreasing_trace_cons (e : event) (es : list event) (w w1 : World) :
  step e w = Some w1 ->
  num_le (progress (processing w)) (progress (processing w1)) ->
  nondecreasing (progress_trace es w1) ->
  nondecreasing (progress_trace (e :: es) w).
Proof.
  intros Hs Hle Hrest. rewrite (progress_trace_cons e es w w1 Hs).
  destruct es as [| e' es']; simpl in *; auto.
Qed.

(** A frame rendered while the video plays keeps the session playing and
    publishes [currentTime / duration * 100]. *)
Lemma playing_frame (d ct : R) (v : VideoSnapshot) (now : number) (w : World) :
  0 < d -> Playing d w ->
  paused v = false -> ended v = false -> currentTime v = Fin ct ->
  exists w1, step (AnimationFrame v now) w = Some w1
             /\ Playing d w1
             /\ progress (processing w1) = Fin (ct / d * 100).
Proof.
  intros Hd ((Hph & Hproc & (rec & Hrec & Hst) & Htasks & Hurl)
             & (h & Hsched) & Hdur) Hp He Hct.
  open_world w. eval_handlers. subst.
  rewrite Hp, He. simpl.
  eexists. split; [reflexivity |]. simpl.
  split.
  - repeat split; simpl; eauto.
  - unfold frameState. simpl. rewrite Hct, div_Fin by lra.
    now autorewrite with js.
Qed.

(** The frames of a session, in order. *)
Lemma playing_frames (d : R) (Hd : 0 < d) (rest : list event) :
  forall (frames : list (VideoSnapshot * number)) (w : World) (lo : R),
    Playing d w ->
    progress (processing w) = Fin (lo / d * 100) ->
    clock_within lo d frames ->
    exists w' hi,
      run_events (map (fun f => AnimationFrame (fst f) (snd f)) frames) w
      = Some w'
      /\ Playing d w'
      /\ progress (processing w') = Fin (hi / d * 100)
      /\ hi <= d
      /\ (nondecreasing (progress_trace rest w') ->
          nondecreasing
            (progress_trace
               (map (fun f => AnimationFrame (fst f) (snd f)) frames ++ rest)
               w)).
Proof.
  induction frames as [| [v now] frames IH]; intros w lo Hplay Hprog Hclock.
  - exists w, lo. simpl in *. auto.
  - destruct Hclock as (Hp & He & ct & Hct & Hlo & Hclock). simpl in Hp, He, Hct.
    destruct (playing_frame d ct v now w Hd Hplay Hp He Hct)
      as (w1 & Hstep & Hplay1 & Hprog1).
    destruct (IH w1 ct Hplay1 Hprog1 Hclock)
      as (w' & hi & Hrun & Hplay' & Hprog' & Hhi & Htrace).
    exists w', hi. simpl map. rewrite run_events_cons, Hstep.
    split; [exact Hrun |]. split; [exact Hplay' |].
    split; [exact Hprog' |]. split; [exact Hhi |].
    intros Hrest. simpl app.
    apply (nondecreasing_trace_cons _ _ w w1 Hstep); [| auto].
    rewrite Hprog, Hprog1. simpl.
    apply Rmult_le_compat_r; [lra |].
    apply Rmult_le_compat_r; [| assumption].
    apply Rlt_le, Rinv_0_lt_compat, Hd.
Qed.

(** Either ending stops the recorder: the progress is left as it is and
    the recorder's two tasks are queued. *)
Lemma ending_stops_recorder (d : R) (e : ending) (w : World) :
  Playing d w -> ends_session e ->
  exists w1 b,
    step (ending_event e) w = Some w1
    /\ progress (processing w1) = progress (processing w)
    /\ tasks (loop w1) = [FireDataAvailable b; FireStop].
Proof.
  intros ((Hph & Hproc & (rec & Hrec & Hst) & Htasks & Hurl)
          & (h & Hsched) & Hdur) Hend.
  destruct rec as [rs rm rv ra rt rg]. simpl in Hst. subst rs.
  open_world w. destruct e as [v now |]; eval_handlers; subst.
  - simpl in Hend. rewrite Hend. destruct (paused v); simpl;
    destruct ar as [h' |]; do 2 eexists; (split; [reflexivity |]);
      simpl; split; reflexivity.
  - rewrite Hproc. simpl.
    destruct ar as [h' |]; [destruct (Pos.eqb h' h) |];
      do 2 eexists; (split; [reflexivity |]); simpl; split; reflexivity.
Qed.

(** The recorder's tasks: [dataavailable] leaves the progress, [stop]
    sets it to 100, clears [isProcessing] and publishes the artifact. *)
Lemma stop_tasks_run (b : Blob) (w1 : World) :
  tasks (loop w1) = [FireDataAvailable b; FireStop] ->
  exists w1' w2,
    step RunTask w1 = Some w1'
    /\ progress (processing w1') = progress (processing w1)
    /\ step RunTask w1' = Some w2
    /\ progress (processing w2) = Fin 100
    /\ isProcessing (processing w2) = false
    /\ is_some (processedVideoUrl w2) = true.
Proof.
  intros Htasks. open_world w1. eval_handlers. subst.
  destruct (Nat.ltb 0 (blob_size b));
    do 2 eexists; (split; [reflexivity |]); simpl;
    (split; [reflexivity |]); (split; [reflexivity |]);
    simpl; repeat split.
Qed.

Lemma startup_event_keeps_processing (ev : event) (w0 w1 : World) :
  startup_event ev = true -> step ev w0 = Some w1 ->
  processing w1 = processing w0.
Proof.
  intros Hev Hstep. open_world w0.
  destruct ev; try discriminate Hev; eval_handlers;
    handler_cases Hstep; injection Hstep as <-; reflexivity.
Qed.

(** C2, as the code has it.  From the start of the render loop (progress
    0) over frames taken at non-decreasing playback times within the
    duration (> 0) to the end of the session, the published progress never
    decreases.  It is set to exactly 100 by the recorder's [onstop] handler,
    which runs when the session completes and also when it is cancelled; a
    start-up event, and so a failing start-up, leaves the processing state
    as it is. *)
Theorem progress_over_session (d : R) (w : World)
    (frames : list (VideoSnapshot * number)) (e : ending)
    (Hd : 0 < d) (Hplay : Playing d w)
    (Hstart : progress (processing w) = Fin 0)
    (Hclock : clock_within 0 d frames) (Hend : ends_session e) :
  nondecreasing (progress_trace (session_events frames e) w)
  /\ (exists w', run_events (session_events frames e) w = Some w'
                 /\ progress (processing w') = Fin 100
                 /\ isProcessing (processing w') = false
                 /\ is_some (processedVideoUrl w') = true)
  /\ (forall ev w0 w1, startup_event ev = true -> step ev w0 = Some w1 ->
                       processing w1 = processing w0).
Proof.
  assert (Hstart' : progress (processing w) = Fin (0 / d * 100)).
  { rewrite Hstart. f_equal. field. lra. }
  destruct (playing_frames d Hd [ending_event e; RunTask; RunTask]
              frames w 0 Hplay Hstart' Hclock)
    as (wp & hi & Hrun & Hplay' & Hprog & Hhi & Htrace).
  destruct (ending_stops_recorder d e wp Hplay' Hend)
    as (w1 & b & Hstep1 & Hprog1 & Htasks).
  destruct (stop_tasks_run b w1 Htasks)
    as (w1' & w2 & Hstep2 & Hprog2 & Hstep3 & Hprog3 & Hproc3 & Hurl3).
  split; [| split].
  - apply Htrace.
    apply (nondecreasing_trace_cons _ _ wp w1 Hstep1).
    { rewrite Hprog1, Hprog. simpl. lra. }
    apply (nondecreasing_trace_cons _ _ w1 w1' Hstep2).
    { rewrite Hprog2, Hprog1, Hprog. simpl. lra. }
    apply (nondecreasing_trace_cons _ _ w1' w2 Hstep3).
    { rewrite Hprog3, Hprog2, Hprog1, Hprog. simpl.
      assert (hi / d <= 1).
      { apply (Rmult_le_reg_r d); [exact Hd |].
        unfold Rdiv. rewrite Rmult_assoc, Rinv_l by lra. lra. }
      lra. }
    simpl. exact I.
  - exists w2. unfold session_events. rewrite run_events_app, Hrun.
    rewrite run_events_cons, Hstep1, run_events_cons, Hstep2,
      run_events_cons, Hstep3.
    simpl. auto.
  - exact startup_event_keeps_processing.
Qed.

Lemma progress_over_session_witness :
  Playing 10 (world_after sample_startup)
  /\ nondecreasing
       (progress_trace
          (session_events [(playing_at 2, Fin 2000); (playing_at 5, Fin 5000)]
             (Completes at_end (Fin 10000)))
          (world_after sample_startup)).
Proof.
  assert (P : Playing 10 (world_after sample_startup)).
  { eval_session. unfold Playing, Running. simpl.
    repeat split; eexists; try split; reflexivity. }
  split; [exact P |].
  refine (proj1 (progress_over_session 10 (world_after sample_startup)
                   [(playing_at 2, Fin 2000); (playing_at 5, Fin 5000)]
                   (Completes at_end (Fin 10000)) ltac:(lra) P _ _ eq_refl)).
  - eval_session. reflexivity.
  - simpl. repeat split.
    exists 2. repeat split; [lra |].
    exists 5. repeat split; lra.
Defined.

(** C2 as stated fails on the sample session: cancelled after a frame at
    2 s (progress 20), it ends with progress 100. *)
Lemma cancelled_session_ends_at_100 :
  Playing 10 (world_after sample_startup)
  /\ exists w1 w2,
       run_events [AnimationFrame (playing_at 2) (Fin 2000); ClickCancel]
         (world_after sample_startup) = Some w1
       /\ progress (processing w1) = Fin (2 / 10 * 100)
       /\ run_events [RunTask; RunTask] w1 = Some w2
       /\ progress (processing w2) = Fin 100.
Proof.
  split.
  - eval_session. unfold Playing, Running. simpl.
    repeat split; eexists; try split; reflexivity.
  - eval_session. do 2 eexists. split; [reflexivity |]. simpl.
    split; [| split; reflexivity].
    rewrite div_Fin by lra. now autorewrite with js.
Qed.

(* ----------------------------------------------------------------- *)
(** ** Audio readiness and the timeout fallback (C7) *)



Example audio_timeline_ready_early :
  audio_timeline (Some 300%Z) None = [AudioCanPlayThrough; TimerFired].
Proof. reflexivity. Qed.

Example audio_timeline_ready_late :
  audio_timeline (Some 1800%Z) (Some 2500%Z)
  = [TimerFired; AudioCanPlayThrough; AudioError].
Proof. reflexivity. Qed.

Example audio_timeline_error_early :
  audio_timeline None (Some 200%Z) = [AudioError; TimerFired].
Proof. reflexivity. Qed.




(* ----------------------------------------------------------------- *)
(** ** The vertical line (C5) *)

Lemma vertical_x_Fin (p w : R) :
  vertical_x (Fin p) (Fin w) = Fin (Rabs (sin (p * PI * 2)) * w).
Proof. unfold vertical_x, Math.PI. now autorewrite with js. Qed.

Lemma vertical_position_eq (w p : R) :
  vertical_position w p = Rabs (sin (p * PI * 2)) * w.
Proof. unfold vertical_position. now rewrite vertical_x_Fin. Qed.

Lemma derivable_pt_lim_ext (f g : R -> R) (x l : R) :
  (forall y, f y = g y) -> derivable_pt_lim f x l -> derivable_pt_lim g x l.
Proof.
  intros E H eps Heps. destruct (H eps Heps) as [delta Hd].
  exists delta. intros h Hh Hlt. rewrite <- !E. now apply Hd.
Qed.

Lemma continuity_ext (f g : R -> R) :
  (forall y, f y = g y) -> continuity f -> continuity g.
Proof.
  intros E H x. specialize (H x).
  unfold continuity_pt, continue_in, limit1_in, limit_in in *.
  intros eps Heps. destruct (H eps Heps) as (alp & Halp & Hlim).
  exists alp. split; [exact Halp |].
  intros y Hy. rewrite <- !E. now apply Hlim.
Qed.

(** The derivative of [|sin (2 pi p)| * w] where the sine does not vanish:
    that of [s * sin (2 pi p) * w], [s] the sign of the sine. *)
Lemma vertical_position_derivative (w q s : R) :
  (0 < sin (q * PI * 2) /\ s = 1) \/ (sin (q * PI * 2) < 0 /\ s = -1) ->
  derivable_pt_lim (vertical_position w) q
    (s * (cos (q * PI * 2) * (PI * 2)) * w).
Proof.
  intros Hs.
  apply (derivable_pt_lim_ext
           (mult_fct
              (comp Rabs
                 (comp sin (mult_fct (mult_fct id (fct_cte PI)) (fct_cte 2))))
              (fct_cte w))).
  { intros y. rewrite vertical_position_eq. reflexivity. }
  replace (s * (cos (q * PI * 2) * (PI * 2)) * w)
    with ((s * (cos (q * PI * 2)
                * ((1 * fct_cte PI q + id q * 0) * fct_cte 2 q
                   + mult_fct id (fct_cte PI) q * 0)))
          * fct_cte w q
          + comp Rabs
              (comp sin (mult_fct (mult_fct id (fct_cte PI)) (fct_cte 2))) q
            * 0)
    by (unfold fct_cte, id, mult_fct, comp; ring).
  apply derivable_pt_lim_mult; [| apply derivable_pt_lim_const].
  apply derivable_pt_lim_comp.
  - apply derivable_pt_lim_comp; [| apply derivable_pt_lim_sin].
    apply derivable_pt_lim_mult; [| apply derivable_pt_lim_const].
    apply derivable_pt_lim_mult;
      [apply derivable_pt_lim_id | apply derivable_pt_lim_const].
  - unfold comp, mult_fct, id, fct_cte.
    destruct Hs as [[Hpos ->] | [Hneg ->]].
    + now apply Rabs_derive_1.
    + now apply Rabs_derive_2.
Qed.

(** Inside (0,1) the sine vanishes at 1/2 only. *)
Lemma sin_sign_inside (q : R) :
  0 < q < 1 -> q <> 1 / 2 ->
  (0 < sin (q * PI * 2) /\ 0 < q < 1 / 2)
  \/ (sin (q * PI * 2) < 0 /\ 1 / 2 < q < 1).
Proof.
  intros Hq Hhalf. pose proof PI_RGT_0 as Hpi.
  destruct (Rlt_or_le q (1 / 2)) as [Hlt | Hge].
  - left. split; [| lra]. apply sin_gt_0; nra.
  - right. assert (1 / 2 < q) by lra. split; [| lra].
    apply sin_lt_0; nra.
Qed.

Lemma scaled_sine_derivative (w : R) :
  derivable_pt_lim (fun h => sin (h * PI * 2) * w) 0 (PI * 2 * w).
Proof.
  apply (derivable_pt_lim_ext
           (mult_fct
              (comp sin (mult_fct (mult_fct id (fct_cte PI)) (fct_cte 2)))
              (fct_cte w))).
  { intros y. reflexivity. }
  replace (PI * 2 * w)
    with ((cos (mult_fct (mult_fct id (fct_cte PI)) (fct_cte 2) 0)
           * ((1 * fct_cte PI 0 + id 0 * 0) * fct_cte 2 0
              + mult_fct id (fct_cte PI) 0 * 0))
          * fct_cte w 0
          + comp sin (mult_fct (mult_fct id (fct_cte PI)) (fct_cte 2)) 0 * 0).
  2:{ unfold fct_cte, id, mult_fct, comp.
      replace (0 * PI * 2) with 0 by ring. rewrite cos_0. ring. }
  apply derivable_pt_lim_mult; [| apply derivable_pt_lim_const].
  apply derivable_pt_lim_comp; [| apply derivable_pt_lim_sin].
  apply derivable_pt_lim_mult; [| apply derivable_pt_lim_const].
  apply derivable_pt_lim_mult;
    [apply derivable_pt_lim_id | apply derivable_pt_lim_const].
Qed.

(** Around 1/2 the position is [sin (2 pi h) * w] on the right and its
    opposite on the left. *)
Lemma vertical_position_near_half (w h : R) :
  - (1 / 2) < h < 1 / 2 ->
  vertical_position w (1 / 2 + h)
  = (if Rle_dec 0 h then 1 else -1) * (sin (h * PI * 2) * w).
Proof.
  intros Hh. pose proof PI_RGT_0 as Hpi.
  rewrite vertical_position_eq.
  replace ((1 / 2 + h) * PI * 2) with (h * PI * 2 + PI) by field.
  rewrite neg_sin, Rabs_Ropp.
  destruct (Rle_dec 0 h) as [Hpos | Hneg].
  - rewrite Rabs_right; [ring |].
    apply Rle_ge. apply sin_ge_0; nra.
  - rewrite Rabs_left; [ring |].
    apply sin_lt_0_var; nra.
Qed.

(** At 1/2 the position has a cusp on a canvas of non-zero width: the
    slopes on the two sides are [2 pi w] and [- 2 pi w]. *)
Lemma vertical_position_cusp_at_half (w : R) :
  w <> 0 -> ~ exists l, derivable_pt_lim (vertical_position w) (1 / 2) l.
Proof.
  intros Hw [l Hl]. pose proof PI_RGT_0 as Hpi.
  pose proof (scaled_sine_derivative w) as Hg.
  assert (Heps : 0 < PI * Rabs w / 2).
  { pose proof (Rabs_pos_lt w Hw). nra. }
  destruct (Hl _ Heps) as [d1 Hd1]. destruct (Hg _ Heps) as [d2 Hd2].
  set (h := Rmin (Rmin d1 d2) (1 / 2) / 2).
  assert (Hh : 0 < h /\ h < d1 /\ h < d2 /\ h < 1 / 2).
  { pose proof (cond_pos d1). pose proof (cond_pos d2).
    unfold h.
    pose proof (Rmin_l (Rmin d1 d2) (1 / 2)).
    pose proof (Rmin_r (Rmin d1 d2) (1 / 2)).
    pose proof (Rmin_l d1 d2). pose proof (Rmin_r d1 d2).
    assert (0 < Rmin (Rmin d1 d2) (1 / 2)).
    { apply Rmin_glb_lt; [apply Rmin_glb_lt; assumption | lra]. }
    lra. }
  destruct Hh as (Hh0 & Hh1 & Hh2 & Hh3).
  assert (Hhalf : vertical_position w (1 / 2) = 0).
  { rewrite vertical_position_eq.
    replace (1 / 2 * PI * 2) with PI by field.
    rewrite sin_PI, Rabs_R0. ring. }
  assert (Hzero : sin (0 * PI * 2) * w = 0).
  { replace (0 * PI * 2) with 0 by ring. rewrite sin_0. ring. }
  (* on the right *)
  assert (Habs : Rabs h < d1 /\ Rabs h < d2 /\ Rabs (- h) < d1
                 /\ Rabs (- h) < d2).
  { rewrite Rabs_Ropp, Rabs_right by lra. auto. }
  destruct Habs as (A1 & A2 & A3 & A4).
  pose proof (Hd1 h ltac:(lra) A1) as R1.
  pose proof (Hd2 h ltac:(lra) A2) as R2.
  pose proof (Hd1 (- h) ltac:(lra) A3) as L1.
  pose proof (Hd2 (- h) ltac:(lra) A4) as L2.
  rewrite Hhalf in R1, L1.
  rewrite (vertical_position_near_half w h) in R1 by lra.
  rewrite (vertical_position_near_half w (- h)) in L1 by lra.
  destruct (Rle_dec 0 h) as [_ | Hc]; [| lra].
  destruct (Rle_dec 0 (- h)) as [Hc | _]; [lra |].
  rewrite !Rplus_0_l, Hzero in R2, L2.
  set (gp := sin (h * PI * 2) * w) in *.
  set (gm := sin (- h * PI * 2) * w) in *.
  apply Rabs_def2 in R1, R2, L1, L2.
  assert (E1 : (1 * gp - 0) / h = gp / h) by (field; lra).
  assert (E2 : (gp - 0) / h = gp / h) by (field; lra).
  assert (E3 : (-1 * gm - 0) / - h = gm / h) by (field; lra).
  assert (E4 : (gm - 0) / - h = - (gm / h)) by (field; lra).
  rewrite E1 in R1. rewrite E2 in R2. rewrite E3 in L1. rewrite E4 in L2.
  destruct (Rcase_abs w) as [Hneg | Hpos].
  - rewrite (Rabs_left w Hneg) in *. lra.
  - rewrite (Rabs_right w Hpos) in *. lra.
Qed.

(** At 1/4 and 3/4 the position peaks smoothly: the derivative is 0. *)
Lemma vertical_position_flat_at_quarters (w : R) :
  derivable_pt_lim (vertical_position w) (1 / 4) 0
  /\ derivable_pt_lim (vertical_position w) (3 / 4) 0.
Proof.
  pose proof PI_RGT_0 as Hpi.
  assert (E1 : 1 / 4 * PI * 2 = PI / 2) by field.
  assert (E3 : 3 / 4 * PI * 2 = 3 * (PI / 2)) by field.
  split.
  - replace 0 with (1 * (cos (1 / 4 * PI * 2) * (PI * 2)) * w)
      by (rewrite E1, cos_PI2; ring).
    apply vertical_position_derivative. left.
    rewrite E1, sin_PI2. split; [lra | reflexivity].
  - replace 0 with (-1 * (cos (3 / 4 * PI * 2) * (PI * 2)) * w)
      by (rewrite E3, cos_3PI2; ring).
    apply vertical_position_derivative. right.
    rewrite E3, sin_3PI2. split; [lra | reflexivity].
Qed.

Lemma vertical_position_derivable_inside (w q : R) :
  0 < q < 1 -> q <> 1 / 2 ->
  exists l, derivable_pt_lim (vertical_position w) q l.
Proof.
  intros Hq Hhalf.
  destruct (sin_sign_inside q Hq Hhalf) as [[Hs _] | [Hs _]].
  - eexists. apply (vertical_position_derivative w q 1). left. auto.
  - eexists. apply (vertical_position_derivative w q (-1)). right. auto.
Qed.

Lemma vertical_position_continuous (w : R) : continuity (vertical_position w).
Proof.
  apply (continuity_ext (fun q => Rabs (sin (q * PI * 2)) * w)).
  - intros y. now rewrite vertical_position_eq.
  - reg.
Qed.

(** Setting the stroke style and the line width leaves the surface. *)
Lemma surface_set_style (r g b : R) (a t : number) (c : context) :
  surface (set_lineWidth t (set_strokeStyle_rgba r g b a c)) = surface c.
Proof.
  destruct a, t; simpl; try reflexivity;
    match goal with |- context [Rltb ?x ?y] => destruct (Rltb x y) end;
    reflexivity.
Qed.

(** One line: [beginPath], [moveTo], [lineTo], [stroke] adds one stroke in
    the current style on top of the surface and keeps the style. *)
Lemma stroke_line (a b c d : number) (X : context) :
  let X' := stroke (lineTo a b (moveTo c d (beginPath X))) in
  (exists segs,
      surface X' = Stroke segs (lineWidth X) (strokeStyle X) :: surface X)
  /\ lineWidth X' = lineWidth X /\ strokeStyle X' = strokeStyle X.
Proof.
  destruct a, b, c, d; simpl; repeat split; eexists; reflexivity.
Qed.

(** The vertical line drawn by [drawLines]: one stroke from [(x, 0)] to
    [(x, height)], under whatever the other two lines add. *)
Lemma drawLines_vertical_stroke (s : LineSettings) (ctx : context) (w h p : R) :
  showVertical s = true ->
  let x := Rabs (sin (p * PI * 2)) * w in
  let c0 := set_lineWidth (lineThickness s)
              (set_strokeStyle_rgba 255 255 255
                 (lineOpacity s / Fin 100)%js ctx) in
  exists later,
    surface (drawLines s ctx (Fin w) (Fin h) (Fin p))
    = later ++ Stroke [mkSegment (x, 0) (x, h)] (lineWidth c0) (strokeStyle c0)
               :: surface ctx.
Proof.
  intros Hv x c0. unfold drawLines. rewrite Hv. cbv zeta. fold c0.
  rewrite (vertical_x_Fin p w). fold x.
  set (c1 := stroke (lineTo (Fin x) (Fin h) (moveTo (Fin x) (Fin 0)
                                               (beginPath c0)))).
  assert (S1 : surface c1
               = Stroke [mkSegment (x, 0) (x, h)] (lineWidth c0)
                   (strokeStyle c0) :: surface ctx).
  { unfold c1. simpl. unfold c0. now rewrite surface_set_style. }
  destruct (showHorizontal s).
  - match goal with
    | |- context [stroke (lineTo ?a ?b (moveTo ?c ?d (beginPath c1)))] =>
        destruct (stroke_line a b c d c1) as ((segs2 & S2) & _ & _);
        set (c2 := stroke (lineTo a b (moveTo c d (beginPath c1)))) in *
    end.
    destruct (showRotating s).
    + match goal with
      | |- context [stroke (lineTo ?a ?b (moveTo ?c ?d (beginPath c2)))] =>
          destruct (stroke_line a b c d c2) as ((segs3 & S3) & _ & _)
      end.
      rewrite S3, S2, S1. eexists [_; _]. reflexivity.
    + rewrite S2, S1. eexists [_]. reflexivity.
  - destruct (showRotating s).
    + match goal with
      | |- context [stroke (lineTo ?a ?b (moveTo ?c ?d (beginPath c1)))] =>
          destruct (stroke_line a b c d c1) as ((segs3 & S3) & _ & _)
      end.
      rewrite S3, S1. eexists [_]. reflexivity.
    + rewrite S1. exists []. reflexivity.
Qed.

(** C5, as the code has it.  With the vertical line enabled, on a canvas
    of finite size and at a finite progress [p], [drawLines] strokes the
    full-height segment from [(x, 0)] to [(x, height)] with
    [x = |sin (2 pi p)| * width].  As a function of [p] this position is
    continuous; inside (0,1) it is differentiable everywhere but at 1/2; at
    [p = 0.25] and [p = 0.75] it peaks with derivative 0 (no cusp there);
    at [p = 0.5], where the line is back at [x = 0], it has a cusp when the
    width is not 0. *)
Theorem vertical_line_position (s : LineSettings) (ctx : context) (w h p : R)
    (Hv : showVertical s = true) :
  let x := Rabs (sin (p * PI * 2)) * w in
  let c0 := set_lineWidth (lineThickness s)
              (set_strokeStyle_rgba 255 255 255
                 (lineOpacity s / Fin 100)%js ctx) in
  vertical_x (Fin p) (Fin w) = Fin x
  /\ (exists later,
        surface (drawLines s ctx (Fin w) (Fin h) (Fin p))
        = later ++ Stroke [mkSegment (x, 0) (x, h)] (lineWidth c0)
                     (strokeStyle c0) :: surface ctx)
  /\ continuity (vertical_position w)
  /\ (forall q, 0 < q < 1 -> q <> 1 / 2 ->
                exists l, derivable_pt_lim (vertical_position w) q l)
  /\ derivable_pt_lim (vertical_position w) (1 / 4) 0
  /\ derivable_pt_lim (vertical_position w) (3 / 4) 0
  /\ (w <> 0 ->
      ~ exists l, derivable_pt_lim (vertical_position w) (1 / 2) l).
Proof.
  intros x c0.
  split; [apply vertical_x_Fin |].
  split; [apply drawLines_vertical_stroke; exact Hv |].
  split; [apply vertical_position_continuous |].
  split; [intros q; apply vertical_position_derivable_inside |].
  split; [apply vertical_position_flat_at_quarters |].
  split; [apply vertical_position_flat_at_quarters |].
  apply vertical_position_cusp_at_half.
Qed.

Lemma vertical_line_position_witness :
  vertical_x (Fin (1 / 4)) (Fin 1280) = Fin (Rabs (sin (1 / 4 * PI * 2)) * 1280)
  /\ continuity (vertical_position 1280)
  /\ ~ exists l, derivable_pt_lim (vertical_position 1280) (1 / 2) l.
Proof.
  destruct (vertical_line_position initialSettings reset 1280 720 (1 / 4)
              eq_refl)
    as (Hx & _ & Hc & _ & _ & _ & Hcusp).
  split; [exact Hx | split; [exact Hc |]].
  apply Hcusp. lra.
Defined.

(** C5 as stated fails on a canvas of width 1280: at [p = 0.25] and
    [p = 0.75] the position has derivative 0, so there is no cusp there, and
    it has a cusp at [p = 0.5]. *)
Lemma vertical_line_cusp_is_at_half :
  derivable_pt_lim (vertical_position 1280) (1 / 4) 0
  /\ derivable_pt_lim (vertical_position 1280) (3 / 4) 0
  /\ ~ exists l, derivable_pt_lim (vertical_position 1280) (1 / 2) l.
Proof.
  split; [apply vertical_position_flat_at_quarters |].
  split; [apply vertical_position_flat_at_quarters |].
  apply vertical_position_cusp_at_half. lra.
Qed.

(* ----------------------------------------------------------------- *)
(** ** Calling the overlay renderer twice (C6) *)

Lemma stroke_line_between (a b c d : number) (X : context) :
  let X' := stroke (lineTo a b (moveTo c d (beginPath X))) in
  surface X' = Stroke (line_between c d a b) (lineWidth X) (strokeStyle X)
                 :: surface X
  /\ lineWidth X' = lineWidth X /\ strokeStyle X' = strokeStyle X.
Proof. destruct a, b, c, d; simpl; repeat split. Qed.

(** What one call of [drawLines] does to the context: the style is the one
    set at its start and the strokes of the enabled lines are added. *)
Lemma drawLines_effect (s : LineSettings) (ctx : context) (w h p : number) :
  let c0 := styled s ctx in
  let once := drawLines s ctx w h p in
  lineWidth once = lineWidth c0
  /\ strokeStyle once = strokeStyle c0
  /\ surface once
     = overlay_strokes s (lineWidth c0) (strokeStyle c0) w h p ++ surface ctx.
Proof.
  intros c0 once. unfold once, drawLines, overlay_strokes. cbv zeta.
  fold (styled s ctx). fold c0.
  assert (S0 : surface c0 = surface ctx) by apply surface_set_style.
  destruct (showVertical s).
  - match goal with
    | |- context [stroke (lineTo ?a ?b (moveTo ?c ?d (beginPath c0)))] =>
        destruct (stroke_line_between a b c d c0) as (S1 & W1 & T1);
        set (c1 := stroke (lineTo a b (moveTo c d (beginPath c0)))) in *
    end.
    destruct (showHorizontal s).
    + match goal with
      | |- context [stroke (lineTo ?a ?b (moveTo ?c ?d (beginPath c1)))] =>
          destruct (stroke_line_between a b c d c1) as (S2 & W2 & T2);
          set (c2 := stroke (lineTo a b (moveTo c d (beginPath c1)))) in *
      end.
      destruct (showRotating s).
      * match goal with
        | |- context [stroke (lineTo ?a ?b (moveTo ?c ?d (beginPath c2)))] =>
            destruct (stroke_line_between a b c d c2) as (S3 & W3 & T3)
        end.
        rewrite S3, S2, S1, W3, W2, W1, T3, T2, T1, S0. repeat split.
      * rewrite S2, S1, W2, W1, T2, T1, S0. repeat split.
    + destruct (showRotating s).
      * match goal with
        | |- context [stroke (lineTo ?a ?b (moveTo ?c ?d (beginPath c1)))] =>
            destruct (stroke_line_between a b c d c1) as (S3 & W3 & T3)
        end.
        rewrite S3, S1, W3, W1, T3, T1, S0. repeat split.
      * rewrite S1, W1, T1, S0. repeat split.
  - destruct (showHorizontal s).
    + match goal with
      | |- context [stroke (lineTo ?a ?b (moveTo ?c ?d (beginPath c0)))] =>
          destruct (stroke_line_between a b c d c0) as (S2 & W2 & T2);
          set (c2 := stroke (lineTo a b (moveTo c d (beginPath c0)))) in *
      end.
      destruct (showRotating s).
      * match goal with
        | |- context [stroke (lineTo ?a ?b (moveTo ?c ?d (beginPath c2)))] =>
            destruct (stroke_line_between a b c d c2) as (S3 & W3 & T3)
        end.
        rewrite S3, S2, W3, W2, T3, T2, S0. repeat split.
      * rewrite S2, W2, T2, S0. repeat split.
    + destruct (showRotating s).
      * match goal with
        | |- context [stroke (lineTo ?a ?b (moveTo ?c ?d (beginPath c0)))] =>
            destruct (stroke_line_between a b c d c0) as (S3 & W3 & T3)
        end.
        rewrite S3, W3, T3, S0. repeat split.
      * rewrite S0. repeat split.
Qed.

(** Setting the style a second time changes nothing. *)
Lemma styled_idempotent (s : LineSettings) (c c' : context) :
  lineWidth c' = lineWidth (styled s c) ->
  strokeStyle c' = strokeStyle (styled s c) ->
  lineWidth (styled s c') = lineWidth (styled s c)
  /\ strokeStyle (styled s c') = strokeStyle (styled s c).
Proof.
  unfold styled.
  destruct (lineOpacity s / Fin 100)%js, (lineThickness s); simpl;
    try match goal with
        | |- context [Rltb ?x ?y] => destruct (Rltb x y); simpl
        end;
    intros Hw Hs; split; first [assumption | reflexivity].
Qed.

Lemma over_opaque (st below : pixel) : alpha st = 1 -> over st below = st.
Proof.
  intros H. destruct st as [r g b a]. simpl in H. subst a.
  unfold over. simpl. f_equal; ring.
Qed.

(** Strokes in one opaque style: a point they reach shows the style, any
    other point shows what is below. *)
Lemma opaque_strokes (st : pixel) (rest : list paint_op) (pt : point)
    (ops : list paint_op) :
  alpha st = 1 -> Forall (stroke_in_style st) ops ->
  pixel_at (ops ++ rest) pt
  = if painted_by ops pt then st else pixel_at rest pt.
Proof.
  intros Ha Hops. induction Hops as [| op ops (segs & lw & ->) _ IH];
    [reflexivity |].
  simpl. rewrite IH.
  destruct (existsb (covers lw pt) segs); simpl.
  - now apply over_opaque.
  - reflexivity.
Qed.

Lemma overlay_strokes_style (s : LineSettings) (lw : R) (st : pixel)
    (w h p : number) :
  Forall (stroke_in_style st) (overlay_strokes s lw st w h p).
Proof.
  unfold overlay_strokes.
  destruct (showRotating s), (showHorizontal s), (showVertical s); simpl;
    repeat first [apply Forall_nil | apply Forall_cons];
    unfold stroke_in_style; eauto.
Qed.

Lemma styled_opaque (s : LineSettings) (ctx : context) :
  lineOpacity s = Fin 100 -> alpha (strokeStyle (styled s ctx)) = 1.
Proof.
  intros Ho. unfold styled. rewrite Ho, div_Fin by lra.
  assert (E : clamp01 (100 / 100) = 1).
  { unfold clamp01. replace (100 / 100) with 1 by field.
    rewrite Rmin_left, Rmax_right; lra. }
  destruct (lineThickness s); simpl; try exact E.
  destruct (Rltb 0 r); simpl; exact E.
Qed.

(** C6, as the code has it.  A second call of [drawLines] with the same
    arguments leaves the same stroke style and line width as the first and
    paints the same strokes again on top (nothing of the first call but the
    surface itself reaches the second).  With fully opaque lines
    ([lineOpacity = 100]) the picture after two calls is, point by point,
    the picture after one call. *)
Theorem drawLines_twice (s : LineSettings) (ctx : context) (w h p : number) :
  let once := drawLines s ctx w h p in
  let twice := drawLines s once w h p in
  let strokes := overlay_strokes s (lineWidth once) (strokeStyle once) w h p in
  lineWidth twice = lineWidth once
  /\ strokeStyle twice = strokeStyle once
  /\ surface once = strokes ++ surface ctx
  /\ surface twice = strokes ++ surface once
  /\ (lineOpacity s = Fin 100 ->
      forall pt, pixel_at (surface twice) pt = pixel_at (surface once) pt).
Proof.
  intros once twice strokes.
  destruct (drawLines_effect s ctx w h p) as (W1 & T1 & S1).
  destruct (drawLines_effect s once w h p) as (W2 & T2 & S2).
  fold once in W1, T1, S1. fold twice in W2, T2, S2.
  destruct (styled_idempotent s ctx once W1 T1) as (Wi & Ti).
  rewrite Wi, <- W1 in W2. rewrite Ti, <- T1 in T2.
  rewrite Wi, Ti, <- W1, <- T1 in S2. rewrite <- W1, <- T1 in S1.
  fold strokes in S1, S2.
  repeat split; try assumption.
  intros Ho pt. rewrite S2, S1.
  assert (Ha : alpha (strokeStyle once) = 1).
  { rewrite T1. now apply styled_opaque. }
  pose proof (overlay_strokes_style s (lineWidth once) (strokeStyle once) w h p)
    as Hst. fold strokes in Hst.
  rewrite !(opaque_strokes (strokeStyle once) _ pt strokes Ha Hst).
  destruct (painted_by strokes pt); reflexivity.
Qed.

Lemma drawLines_twice_witness :
  let s := mkSettings true true true (Fin 5) (Fin 100) in
  let once := drawLines s black_canvas (Fin 100) (Fin 100) (Fin (1 / 4)) in
  let twice := drawLines s once (Fin 100) (Fin 100) (Fin (1 / 4)) in
  lineOpacity s = Fin 100
  /\ pixel_at (surface twice) (100, 50) = pixel_at (surface once) (100, 50).
Proof.
  intros s once twice.
  destruct (drawLines_twice s black_canvas (Fin 100) (Fin 100) (Fin (1 / 4)))
    as (_ & _ & _ & _ & Hsame).
  split; [reflexivity |].
  exact (Hsame eq_refl (100, 50)).
Defined.

Ltac real_bools :=
  repeat match goal with
         | |- context [Rleb ?a ?b] =>
             first [rewrite (Rleb_true a b) by lra
                   | rewrite (Rleb_false a b) by lra]
         | |- context [Rltb ?a ?b] =>
             first [rewrite (Rltb_true a b) by lra
                   | rewrite (Rltb_false a b) by lra]
         end.

Lemma translucent_surface (ctx : context) :
  surface (drawLines initialSettings ctx (Fin 100) (Fin 100) (Fin 0))
  = Stroke [mkSegment (0, 0) (0, 100)] 2 (rgba 255 255 255 (7 / 10))
      :: surface ctx.
Proof.
  unfold drawLines. simpl.
  rewrite div_Fin by lra. rewrite (vertical_x_Fin 0 100).
  replace (Rabs (sin (0 * PI * 2)) * 100) with 0
    by (replace (0 * PI * 2) with 0 by ring; rewrite sin_0, Rabs_R0; ring).
  simpl. real_bools. simpl.
  replace (clamp01 (70 / 100)) with (7 / 10); [reflexivity |].
  unfold clamp01. rewrite Rmin_right, Rmax_right; lra.
Qed.

(** C6 as stated fails for the default style (opacity 70): on a black
    surface of 100 by 100, at progress 0, the point (0, 50) under the
    vertical line has red component 0.7 after one call and 0.91 after
    two. *)
Lemma translucent_lines_blend_twice :
  let once := drawLines initialSettings black_canvas (Fin 100) (Fin 100)
                (Fin 0) in
  let twice := drawLines initialSettings once (Fin 100) (Fin 100) (Fin 0) in
  red (pixel_at (surface once) (0, 50)) = 7 / 10
  /\ red (pixel_at (surface twice) (0, 50)) = 91 / 100
  /\ pixel_at (surface twice) (0, 50) <> pixel_at (surface once) (0, 50).
Proof.
  intros once twice.
  assert (E1 : red (pixel_at (surface once) (0, 50)) = 7 / 10).
  { unfold once. rewrite translucent_surface.
    unfold black_canvas. simpl. unfold in_rect, covers. simpl.
    real_bools. simpl. field. }
  assert (E2 : red (pixel_at (surface twice) (0, 50)) = 91 / 100).
  { unfold twice, once. rewrite !translucent_surface.
    unfold black_canvas. simpl. unfold in_rect, covers. simpl.
    real_bools. simpl. field. }
  split; [exact E1 | split; [exact E2 |]].
  intros H. rewrite H in E2. lra.
Qed.

(* ================================================================= *)
(** * Further properties of the code *)

(** ** The three lines of the overlay *)

Lemma line_between_Fin (c d a b : R) :
  line_between (Fin c) (Fin d) (Fin a) (Fin b) = [mkSegment (c, d) (a, b)].
Proof. reflexivity. Qed.

Lemma horizontal_y_Fin (p h : R) :
  horizontal_y (Fin p) (Fin h) = Fin (Rabs (sin (p * PI * 2)) * h).
Proof. unfold horizontal_y, Math.PI. now autorewrite with js. Qed.

Lemma rotating_line_Fin (w h p : R) :
  rotating_line (Fin w) (Fin h) (Fin p)
  = [mkSegment (w / 2, h / 2)
       (w / 2 + cos (p * PI * 2) * (Rmin w h * (4 / 10)),
        h / 2 + sin (p * PI * 2) * (Rmin w h * (4 / 10)))].
Proof.
  unfold rotating_line, Math.PI. cbv zeta.
  rewrite !(div_Fin _ 2) by lra. autorewrite with js. simpl.
  autorewrite with js. reflexivity.
Qed.

Lemma overlay_strokes_Fin (s : LineSettings) (lw : R) (st : pixel) (w h p : R) :
  overlay_strokes s lw st (Fin w) (Fin h) (Fin p)
  = (if showRotating s
     then [Stroke (rotating_line (Fin w) (Fin h) (Fin p)) lw st] else [])
    ++ (if showHorizontal s
        then [Stroke [mkSegment (0, Rabs (sin (p * PI * 2)) * h)
                        (w, Rabs (sin (p * PI * 2)) * h)] lw st]
        else [])
    ++ (if showVertical s
        then [Stroke [mkSegment (Rabs (sin (p * PI * 2)) * w, 0)
                        (Rabs (sin (p * PI * 2)) * w, h)] lw st]
        else []).
Proof.
  unfold overlay_strokes. cbv zeta.
  rewrite (vertical_x_Fin p w), (horizontal_y_Fin p h).
  rewrite !line_between_Fin. reflexivity.
Qed.

(** X1.  On a canvas of finite size at a finite progress, [drawLines] adds
    to the surface exactly one stroke per enabled line and nothing else, in
    the order vertical, horizontal, rotating, all in the style it has set;
    the stroke of a line does not depend on which other lines are enabled,
    and with no line enabled the surface is left as it is.  The horizontal
    line runs over the full width at [y = |sin (2 pi p)| * height]. *)
Theorem drawLines_paints_enabled_lines (s : LineSettings) (ctx : context)
    (w h p : R) :
  let lw := lineWidth (styled s ctx) in
  let st := strokeStyle (styled s ctx) in
  let y := Rabs (sin (p * PI * 2)) * h in
  let x := Rabs (sin (p * PI * 2)) * w in
  surface (drawLines s ctx (Fin w) (Fin h) (Fin p))
  = (if showRotating s
     then [Stroke (rotating_line (Fin w) (Fin h) (Fin p)) lw st] else [])
    ++ (if showHorizontal s
        then [Stroke [mkSegment (0, y) (w, y)] lw st] else [])
    ++ (if showVertical s
        then [Stroke [mkSegment (x, 0) (x, h)] lw st] else [])
    ++ surface ctx.
Proof.
  intros lw st y x.
  destruct (drawLines_effect s ctx (Fin w) (Fin h) (Fin p)) as (_ & _ & S).
  rewrite S, overlay_strokes_Fin. now rewrite <- !app_assoc.
Qed.

Lemma abs_sin_bounds (a : R) : 0 <= Rabs (sin a) <= 1.
Proof.
  split; [apply Rabs_pos |].
  apply Rabs_le. destruct (SIN_bound a). lra.
Qed.

(** X2.  On a canvas of width and height at least 0, every segment that
    [drawLines] strokes has both its end points on the canvas: the vertical
    and the horizontal line move between the two borders, and the rotating
    line, of length 0.4 times the smaller side, stays inside. *)
Theorem drawLines_stays_on_canvas (s : LineSettings) (ctx : context)
    (w h p : R) (Hw : 0 <= w) (Hh : 0 <= h) :
  let strokes := overlay_strokes s (lineWidth (styled s ctx))
                   (strokeStyle (styled s ctx)) (Fin w) (Fin h) (Fin p) in
  surface (drawLines s ctx (Fin w) (Fin h) (Fin p)) = strokes ++ surface ctx
  /\ forall segs lw st seg,
       In (Stroke segs lw st) strokes -> In seg segs ->
       on_canvas w h (seg_from seg) /\ on_canvas w h (seg_to seg).
Proof.
  intros strokes. split; [apply drawLines_effect |].
  intros segs lw st seg Hop Hseg. unfold strokes in Hop.
  rewrite overlay_strokes_Fin, rotating_line_Fin in Hop.
  pose proof (abs_sin_bounds (p * PI * 2)) as Ha.
  pose proof (SIN_bound (p * PI * 2)) as Hs.
  pose proof (COS_bound (p * PI * 2)) as Hc.
  pose proof (Rmin_l w h) as Hl. pose proof (Rmin_r w h) as Hr.
  assert (Hm : 0 <= Rmin w h) by (apply Rmin_glb; assumption).
  set (a := Rabs (sin (p * PI * 2))) in *.
  set (sn := sin (p * PI * 2)) in *. set (cs := cos (p * PI * 2)) in *.
  set (m := Rmin w h) in *.
  assert (Hseg' : seg = mkSegment (w / 2, h / 2)
                          (w / 2 + cs * (m * (4 / 10)),
                           h / 2 + sn * (m * (4 / 10)))
                  \/ seg = mkSegment (0, a * h) (w, a * h)
                  \/ seg = mkSegment (a * w, 0) (a * w, h)).
  { destruct (showRotating s), (showHorizontal s), (showVertical s);
      simpl in Hop;
      repeat match goal with
             | H : _ \/ _ |- _ => destruct H as [H | H]
             | H : False |- _ => destruct H
             | H : Stroke _ _ _ = Stroke _ _ _ |- _ =>
                 injection H as <- _ _; simpl in Hseg
             end.
    all: subst seg; auto. }
  unfold on_canvas.
  destruct Hseg' as [-> | [-> | ->]]; simpl; repeat split; nra.
Qed.

Lemma drawLines_stays_on_canvas_witness :
  on_canvas 1280 720
    (1280 / 2 + cos (1 / 8 * PI * 2) * (Rmin 1280 720 * (4 / 10)),
     720 / 2 + sin (1 / 8 * PI * 2) * (Rmin 1280 720 * (4 / 10))).
Proof.
  destruct (drawLines_stays_on_canvas (mkSettings true true true (Fin 2) (Fin 70))
              reset 1280 720 (1 / 8) ltac:(lra) ltac:(lra)) as (_ & H).
  set (seg := mkSegment (1280 / 2, 720 / 2)
                (1280 / 2 + cos (1 / 8 * PI * 2) * (Rmin 1280 720 * (4 / 10)),
                 720 / 2 + sin (1 / 8 * PI * 2) * (Rmin 1280 720 * (4 / 10)))).
  refine (proj2 (H [seg] _ _ seg _ (or_introl eq_refl))).
  rewrite overlay_strokes_Fin, rotating_line_Fin. left. reflexivity.
Defined.

(** X3.  The rotating line starts at the centre of the canvas and ends at
    distance [0.4 * min width height] from it; it points right at progress
    0, down at 1/4, left at 1/2 and up at 3/4 (clockwise on the canvas,
    whose y axis points down) and makes one full turn per unit of
    progress. *)
Theorem rotating_line_turns_clockwise (w h p : R) :
  let r := Rmin w h * (4 / 10) in
  let tip q := (w / 2 + cos (q * PI * 2) * r, h / 2 + sin (q * PI * 2) * r) in
  rotating_line (Fin w) (Fin h) (Fin p) = [mkSegment (w / 2, h / 2) (tip p)]
  /\ (fst (tip p) - w / 2) * (fst (tip p) - w / 2)
     + (snd (tip p) - h / 2) * (snd (tip p) - h / 2) = r * r
  /\ tip 0 = (w / 2 + r, h / 2)
  /\ tip (1 / 4) = (w / 2, h / 2 + r)
  /\ tip (1 / 2) = (w / 2 - r, h / 2)
  /\ tip (3 / 4) = (w / 2, h / 2 - r)
  /\ rotating_line (Fin w) (Fin h) (Fin (p + 1))
     = rotating_line (Fin w) (Fin h) (Fin p).
Proof.
  intros r tip.
  split; [apply rotating_line_Fin |].
  split.
  { unfold tip. simpl. pose proof (sin2_cos2 (p * PI * 2)) as E.
    unfold Rsqr in E. nra. }
  assert (E0 : 0 * PI * 2 = 0) by ring.
  assert (E1 : 1 / 4 * PI * 2 = PI / 2) by field.
  assert (E2 : 1 / 2 * PI * 2 = PI) by field.
  assert (E3 : 3 / 4 * PI * 2 = 3 * (PI / 2)) by field.
  unfold tip.
  rewrite E0, E1, E2, E3, cos_0, sin_0, cos_PI2, sin_PI2, cos_PI, sin_PI,
    cos_3PI2, sin_3PI2.
  repeat split; try (f_equal; ring).
  rewrite !rotating_line_Fin.
  replace ((p + 1) * PI * 2) with (p * PI * 2 + 2 * INR 1 * PI)
    by (simpl; ring).
  now rewrite cos_period, sin_period.
Qed.

(** X4.  The vertical line bounces twice over the video: its position has
    period 1/2 in the progress, is 0 at progress 0 and equal to the width
    at progress 1/4, and on a canvas of width at least 0 lies between 0 and
    the width. *)
Theorem vertical_line_bounces_twice (w p : R) :
  vertical_position w (p + 1 / 2) = vertical_position w p
  /\ vertical_position w 0 = 0
  /\ vertical_position w (1 / 4) = w
  /\ (0 <= w -> 0 <= vertical_position w p <= w).
Proof.
  rewrite !vertical_position_eq.
  replace ((p + 1 / 2) * PI * 2) with (p * PI * 2 + PI) by field.
  replace (0 * PI * 2) with 0 by ring.
  replace (1 / 4 * PI * 2) with (PI / 2) by field.
  rewrite neg_sin, Rabs_Ropp, sin_0, sin_PI2, Rabs_R0, Rabs_R1.
  repeat split; try ring.
  - pose proof (abs_sin_bounds (p * PI * 2)). nra.
  - pose proof (abs_sin_bounds (p * PI * 2)). nra.
Qed.

(* ----------------------------------------------------------------- *)
(** ** What a rendered frame shows *)

Lemma pixel_at_app_below (ops rest1 rest2 : list paint_op) (pt : point) :
  pixel_at rest1 pt = pixel_at rest2 pt ->
  pixel_at (ops ++ rest1) pt = pixel_at (ops ++ rest2) pt.
Proof.
  intros H. induction ops as [| op ops IH]; [exact H |].
  simpl. now rewrite IH.
Qed.

Lemma opaque_image_covers (img : point -> pixel) (x y w h : R)
    (old : list paint_op) (pt : point) :
  in_rect pt x y w h = true -> alpha (img pt) = 1 ->
  pixel_at (Image img x y w h :: old) pt = img pt.
Proof.
  intros Hin Ha. simpl. rewrite Hin. now apply over_opaque.
Qed.

(** X5.  In the processing loop overlays do not pile up: after a frame is
    rendered (video playing, canvas of finite size, opaque video frame),
    every point of the canvas shows the video frame under the lines of this
    frame only, whatever was on the surface before. *)
Theorem renderFrame_shows_frame_and_overlay (v : VideoSnapshot) (now : number)
    (w : World) (cw ch : R)
    (Hp : paused v = false) (He : ended v = false)
    (Hcw : canvas_width (canvas w) = Fin cw)
    (Hch : canvas_height (canvas w) = Fin ch)
    (Hopaque : forall pt, alpha (frame v pt) = 1) :
  let c := getContext (canvas (renderFrame v now w)) in
  forall pt, in_rect pt 0 0 cw ch = true ->
    pixel_at (surface c) pt
    = pixel_at
        (overlay_strokes (settings w) (lineWidth c) (strokeStyle c)
           (Fin cw) (Fin ch) (frame_progress (currentTime v) (v_duration v))
         ++ [Image (frame v) 0 0 cw ch]) pt.
Proof.
  intros c pt Hin. unfold c.
  rewrite (renderFrame_overlay_progress v now w Hp He), Hcw, Hch.
  match goal with
  | |- context [drawLines ?s ?ctx ?a ?b ?q] =>
      destruct (drawLines_effect s ctx a b q) as (W & T & S)
  end.
  rewrite S, W, T. apply pixel_at_app_below.
  simpl surface.
  rewrite !opaque_image_covers by (try assumption; apply Hopaque).
  reflexivity.
Qed.

Lemma renderFrame_shows_frame_and_overlay_witness :
  let c := getContext (canvas (renderFrame (playing_at 2) (Fin 2000)
                                 (world_after sample_startup))) in
  pixel_at (surface c) (640, 360)
  = pixel_at
      (overlay_strokes initialSettings (lineWidth c) (strokeStyle c)
         (Fin 1280) (Fin 720) (frame_progress (Fin 2) (Fin 10))
       ++ [Image black_frame 0 0 1280 720]) (640, 360).
Proof.
  assert (Hcw : canvas_width (canvas (world_after sample_startup)) = Fin 1280)
    by (eval_session; reflexivity).
  assert (Hch : canvas_height (canvas (world_after sample_startup)) = Fin 720)
    by (eval_session; reflexivity).
  assert (Hs : settings (world_after sample_startup) = initialSettings)
    by (eval_session; reflexivity).
  pose proof (renderFrame_shows_frame_and_overlay (playing_at 2) (Fin 2000)
                (world_after sample_startup) 1280 720 eq_refl eq_refl Hcw Hch
                (fun _ => eq_refl) (640, 360)) as H.
  rewrite Hs in H. apply H.
  unfold in_rect. simpl. real_bools. reflexivity.
Defined.

(** X6.  The preview loop starts every frame from a cleared canvas of the
    size of the video: once the video has a size, the surface holds the
    video frame and the lines of this frame and nothing else, and the next
    frame is requested exactly when the video is neither paused nor
    ended. *)
Theorem previewFrame_picture (v : VideoSnapshot) (vw vh : R) (w : World)
    (Hw : vw <> 0) (Hh : vh <> 0) :
  let r := previewFrame v (Fin vw) (Fin vh) w in
  let c := getContext (canvas (fst r)) in
  surface c
  = overlay_strokes (settings w) (lineWidth c) (strokeStyle c)
      (Fin vw) (Fin vh) (frame_progress (currentTime v) (v_duration v))
    ++ [Image (frame v) 0 0 vw vh]
  /\ canvas_width (canvas (fst r)) = Fin vw
  /\ canvas_height (canvas (fst r)) = Fin vh
  /\ snd r = negb (paused v) && negb (ended v)
  /\ (snd r = false -> loop (fst r) = loop w).
Proof.
  intros r c.
  assert (Hc : c = drawLines (settings w)
                 (drawImage (frame v) (Fin 0) (Fin 0) (Fin vw) (Fin vh) reset)
                 (Fin vw) (Fin vh)
                 (frame_progress (currentTime v) (v_duration v)))
    by (apply previewFrame_overlay_progress; assumption).
  split.
  { rewrite Hc.
    match goal with
    | |- context [drawLines ?s ?ctx ?a ?b ?q] =>
        destruct (drawLines_effect s ctx a b q) as (W & T & S)
    end.
    rewrite S, W, T. reflexivity. }
  unfold r, previewFrame, toBoolean.
  rewrite (Rzero_false vw Hw), (Rzero_false vh Hh). simpl.
  destruct (negb (paused v) && negb (ended v)); simpl; repeat split.
  discriminate.
Qed.

Lemma previewFrame_picture_witness :
  snd (previewFrame at_end (Fin 1280) (Fin 720) (world_after sample_startup))
  = false
  /\ canvas_width
       (canvas (fst (previewFrame at_end (Fin 1280) (Fin 720)
                       (world_after sample_startup)))) = Fin 1280.
Proof.
  destruct (previewFrame_picture at_end 1280 720 (world_after sample_startup)
              ltac:(lra) ltac:(lra)) as (_ & Hw & _ & Hs & _).
  split; [exact Hs | exact Hw].
Defined.

(* ----------------------------------------------------------------- *)
(** ** The end of a session: resources *)







(** What [cancelProcessing] leaves behind. *)
Lemma cancelProcessing_leaves (w : World) :
  let w' := cancelProcessing w in
  recorder_live w' = false
  /\ (forall s, streamRef (refs w') = Some s -> s = mkStream false)
  /\ audioElementRef (refs w') = None
  /\ audioContextRef (refs w') = None
  /\ isProcessing (processing w') = false
  /\ (forall h, animationRef (refs w') = Some h ->
                scheduledFrame (loop w') <> Some h).
Proof.
  open_world w.
  destruct mr as [[[] rm rv ra rt rg] |], ar as [h |], sf as [h' |];
    eval_handlers; unfold stop_tracks; repeat split;
    try (destruct sr; simpl; intros s0 [= <-]; reflexivity);
    try (intros h0 [= <-]; try discriminate;
         destruct (Pos.eqb_spec h h'); [discriminate | congruence]);
    try discriminate.
Qed.

(** On a state of that shape [cancelProcessing] does nothing. *)
Lemma cancelProcessing_nothing_left (w : World) :
  recorder_live w = false ->
  (forall s, streamRef (refs w) = Some s -> s = mkStream false) ->
  audioElementRef (refs w) = None ->
  audioContextRef (refs w) = None ->
  isProcessing (processing w) = false ->
  (forall h, animationRef (refs w) = Some h ->
             scheduledFrame (loop w) <> Some h) ->
  cancelProcessing w = w.
Proof.
  intros Hlive Hs Hae Hac Hproc Hh.
  open_world w. destruct pr as [ip pg pf pn pt pe].
  unfold recorder_live in Hlive. simpl in Hlive, Hs, Hae, Hac, Hproc, Hh.
  subst ae ac ip.
  assert (Esr : option_map stop_tracks sr = sr).
  { destruct sr as [s0 |]; [| reflexivity].
    simpl. now rewrite (Hs s0 eq_refl). }
  assert (Esf : match ar with
                | Some h => match sf with
                            | Some h' => if Pos.eqb h h' then None else Some h'
                            | None => None
                            end
                | None => sf
                end = sf).
  { destruct ar as [h |]; [| reflexivity].
    destruct sf as [h' |]; [| reflexivity].
    destruct (Pos.eqb_spec h h') as [-> | _]; [| reflexivity].
    exfalso. exact (Hh h' eq_refl eq_refl). }
  destruct mr as [rec |].
  - destruct rec as [[] rm rv ra rt rg]; try discriminate Hlive.
    destruct ar as [h |]; eval_handlers; rewrite ?Esr; rewrite ?Esf;
      reflexivity.
  - destruct ar as [h |]; eval_handlers; rewrite ?Esr; rewrite ?Esf;
      reflexivity.
Qed.

(** X8.  Cancelling is idempotent: in any state, a second
    [cancelProcessing] changes nothing; in particular the recorder is not
    stopped a second time and its events are queued only once. *)
Theorem cancelProcessing_idempotent (w : World) :
  cancelProcessing (cancelProcessing w) = cancelProcessing w.
Proof.
  destruct (cancelProcessing_leaves w) as (H1 & H2 & H3 & H4 & H5 & H6).
  now apply cancelProcessing_nothing_left.
Qed.

(* ----------------------------------------------------------------- *)
(** ** The recorded data *)







(* ----------------------------------------------------------------- *)
(** ** After the artifact *)

Lemma nothing_without_video_step (e : event) (w w' : World) :
  nothing_without_video w -> step e w = Some w' -> nothing_without_video w'.
Proof.
  unfold nothing_without_video. intros Hinv Hstep.
  open_world w. simpl in Hinv.
  destruct vu as [u |].
  - clear Hinv.
    assert (Hvu : videoUrl w' <> None).
    { destruct e; eval_handlers; handler_cases Hstep;
        try discriminate Hstep; injection Hstep as <-; simpl; discriminate. }
    intros E. contradiction.
  - destruct (Hinv eq_refl) as (-> & Hproc & -> & -> & ->). clear Hinv.
    destruct e; eval_handlers; try rewrite Hproc in Hstep;
      handler_cases Hstep; try discriminate Hstep;
      injection Hstep as <-; simpl;
      intros Hvu; try discriminate Hvu; repeat split; assumption.
Qed.

Lemma nothing_without_video_reachable (sup : string -> bool) (es : list event)
    (w : World) :
  run_events es (initialWorld sup) = Some w -> nothing_without_video w.
Proof.
  assert (G : forall es w0 w1, nothing_without_video w0 ->
                run_events es w0 = Some w1 -> nothing_without_video w1).
  { clear. induction es as [| e es IH]; intros w0 w1 Hinv Hrun; simpl in Hrun.
    - injection Hrun as <-. exact Hinv.
    - destruct (step e w0) as [w2 |] eqn:Hstep; [| discriminate].
      exact (IH w2 w1 (nothing_without_video_step e w0 w2 Hinv Hstep) Hrun). }
  apply G. intros _. repeat split.
Qed.

(** An artifact, once published, stays. *)
Lemma artifact_kept_step (e : event) (w w' : World) :
  nothing_without_video w -> is_some (processedVideoUrl w) = true ->
  step e w = Some w' -> is_some (processedVideoUrl w') = true.
Proof.
  unfold nothing_without_video. intros Hinv Hurl Hstep.
  open_world w. simpl in Hinv, Hurl.
  destruct pvu as [a |]; [| discriminate Hurl].
  destruct vu as [u |]; [| destruct (Hinv eq_refl) as (E & _); discriminate E].
  clear Hinv.
  destruct e; eval_handlers; handler_cases Hstep;
    try discriminate Hstep; injection Hstep as <-; reflexivity.
Qed.

(** X10.  A published artifact ends the use of the page: in every state
    the component reaches, once a processed video exists it exists in every
    later state, and neither the Process button nor the file input can be
    used again (there is no second session and no second upload). *)
Theorem artifact_is_final (sup : string -> bool) (es es' : list event)
    (w w' : World)
    (Hreach : run_events es (initialWorld sup) = Some w)
    (Hurl : is_some (processedVideoUrl w) = true)
    (Hlater : run_events es' w = Some w') :
  is_some (processedVideoUrl w') = true
  /\ showsProcessButton w' = false
  /\ (forall video, step (ClickProcess video) w' = None)
  /\ (forall file, step (Upload file) w' = None).
Proof.
  assert (Hinv : nothing_without_video w)
    by exact (nothing_without_video_reachable sup es w Hreach).
  assert (G : is_some (processedVideoUrl w') = true /\ nothing_without_video w').
  { clear Hreach. revert w Hinv Hurl Hlater.
    induction es' as [| e es' IH]; intros w Hinv Hurl Hlater; simpl in Hlater.
    - injection Hlater as <-. split; assumption.
    - destruct (step e w) as [w1 |] eqn:Hstep; [| discriminate].
      apply (IH w1); [| | exact Hlater].
      + exact (nothing_without_video_step e w w1 Hinv Hstep).
      + exact (artifact_kept_step e w w1 Hinv Hurl Hstep). }
  destruct G as (Hurl' & Hinv').
  unfold nothing_without_video in Hinv'.
  open_world w'. simpl in Hurl', Hinv'.
  destruct pvu as [a |]; [| discriminate Hurl'].
  destruct vu as [u |]; [| destruct (Hinv' eq_refl) as (E & _); discriminate E].
  split; [reflexivity |].
  assert (Hbtn : showsProcessButton
                   (mkWorld (Some u) (Some a) st pr cv
                      (mkRefs ar mr ch sr ae ac) (mkRun ph aud dur mt t0)
                      (mkLoop sf nh tm tk) its) = false).
  { unfold showsProcessButton. simpl. now rewrite andb_false_r. }
  split; [exact Hbtn |].
  split; [intros video; simpl; now rewrite Hbtn | reflexivity].
Qed.

Lemma artifact_is_final_witness :
  exists w w',
    run_events sample_completed (initialWorld all_supported) = Some w
    /\ run_events [ClickCancel] w = None
    /\ run_events [] w = Some w'
    /\ step (ClickProcess sample_video) w' = None.
Proof.
  assert (E : exists w,
             run_events sample_completed (initialWorld all_supported) = Some w
             /\ is_some (processedVideoUrl w) = true
             /\ run_events [ClickCancel] w = None).
  { eval_session. eexists. repeat split. }
  destruct E as (w & Hreach & Hurl & Hcancel).
  exists w, w.
  destruct (artifact_is_final all_supported sample_completed [] w w
              Hreach Hurl eq_refl) as (_ & _ & Hproc & _).
  repeat split; try assumption. apply Hproc.
Defined.

(* ----------------------------------------------------------------- *)
(** ** Start-ups that fail, and cancelling during start-up *)

(** What a state in which Process can be clicked looks like. *)
Lemma startable_state (w : World) :
  showsProcessButton w = true -> in_flight w = false ->
  exists u, videoUrl w = Some u
            /\ isProcessing (processing w) = false
            /\ processedVideoUrl w = None
            /\ tasks (loop w) = [] /\ timers (loop w) = []
            /\ recorder_live w = false
            /\ (phase (run w) = NotRunning \/ phase (run w) = Rendering
                \/ phase (run w) = Threw).
Proof.
  intros Hbtn Hidle. open_world w. eval_handlers.
  destruct vu; [| discriminate Hbtn].
  destruct (isProcessing pr); [discriminate Hbtn |].
  destruct pvu; [discriminate Hbtn |].
  destruct ph; try discriminate Hidle;
    (destruct mr as [[[] ? ? ? ? ?] |]; try discriminate Hidle);
    (destruct tk; [| discriminate Hidle]);
    (destruct tm; [| discriminate Hidle]);
    eexists; repeat split; auto.
Qed.



Lemma sample_uploaded_startable :
  showsProcessButton (world_after [Upload (Some sample_file)]) = true
  /\ in_flight (world_after [Upload (Some sample_file)]) = false.
Proof. split; eval_session; reflexivity. Qed.


(** The selected type is refused by the host exactly when none of the
    three types is supported. *)
Lemma selected_unsupported_iff (sup : string -> bool) :
  sup (selectMimeType sup) = false
  <-> sup vp9_opus = false /\ sup vp8_opus = false /\ sup webm = false.
Proof.
  unfold selectMimeType.
  destruct (sup vp9_opus) eqn:E9; [rewrite E9; intuition discriminate |].
  destruct (sup vp8_opus) eqn:E8; [rewrite E8; intuition discriminate |].
  intuition.
Qed.

(** X12.  On a host that supports none of the three types the session
    fails after the audio wait, when the recorder is constructed: the audio
    context and the combined stream exist by then, no recorder is created,
    metadata is never awaited, and the page goes on showing the session as
    processing.  Cancel releases the context and the stream and brings the
    page back to a state without artifact. *)
Theorem unsupported_type_fails_startup (video : VideoElement) (w : World)
    (Hbtn : showsProcessButton w = true) (Hidle : in_flight w = false)
    (H9 : isTypeSupported w vp9_opus = false)
    (H8 : isTypeSupported w vp8_opus = false)
    (Hwebm : isTypeSupported w webm = false) :
  exists w1,
    run_events [ClickProcess video; TimerFired] w = Some w1
    /\ phase (run w1) = Threw
    /\ run_mimeType (run w1) = webm
    /\ mediaRecorderRef (refs w1) = mediaRecorderRef (refs w)
    /\ audioContextRef (refs w1) = Some ctx_running
    /\ streamRef (refs w1) = Some (mkStream true)
    /\ isProcessing (processing w1) = true
    /\ step LoadedMetadata w1 = None
    /\ exists w2,
         step ClickCancel w1 = Some w2
         /\ audioContextRef (refs w2) = None
         /\ streamRef (refs w2) = Some (mkStream false)
         /\ audioElementRef (refs w2) = None
         /\ processedVideoUrl w2 = None
         /\ tasks (loop w2) = []
         /\ showsProcessButton w2 = true.
Proof.
  destruct (startable_state w Hbtn Hidle)
    as (u & Hvu & Hproc & Hpvu & Htk & Htm & Hlive & Hph).
  clear Hbtn Hidle.
  open_world w. destruct pr as [ip pg pf pn pt pe].
  unfold recorder_live in Hlive.
  simpl in Hvu, Hproc, Hpvu, Htk, Htm, Hlive, Hph, H9, H8, Hwebm.
  subst vu ip pvu tk tm.
  assert (Hmr : mr = None \/ exists rm rv ra rt rg,
                  mr = Some (mkRecorder inactive rm rv ra rt rg)).
  { destruct mr as [[[] rm rv ra rt rg] |]; try discriminate Hlive;
      [right; eauto 6 | left; reflexivity]. }
  clear Hlive.
  destruct Hph as [-> | [-> | ->]];
    destruct Hmr as [-> | (rm & rv & ra & rt & rg & ->)];
    destruct ar as [h |]; destruct sf as [h' |];
    cbv beta iota delta [run_events]; eval_handlers;
    unfold selectMimeType; rewrite H9, H8, Hwebm; simpl;
    (eexists; split; [reflexivity |]; simpl;
     repeat (split; [reflexivity |]);
     eexists; split; [reflexivity |]; simpl;
     try destruct (Pos.eqb h h'); simpl; repeat split).
Qed.

Lemma unsupported_type_fails_startup_witness :
  let w := handleFileUpload (Some sample_file) (initialWorld (fun _ => false)) in
  exists w1,
    run_events [ClickProcess sample_video; TimerFired] w = Some w1
    /\ phase (run w1) = Threw
    /\ mediaRecorderRef (refs w1) = None.
Proof.
  intro w.
  assert (Hbtn : showsProcessButton w = true) by reflexivity.
  assert (Hidle : in_flight w = false) by reflexivity.
  destruct (unsupported_type_fails_startup sample_video w Hbtn Hidle
              eq_refl eq_refl eq_refl)
    as (w1 & Hrun & Hph & _ & Hmr & _).
  exists w1. repeat split; assumption.
Defined.

(** X13.  Cancel during the wait for the audio does not end the call of
    [processVideo]: the page leaves the processing view, but once the wait
    is over the recorder is created and started as usual, and the first
    frame of the render loop puts the page back into the processing view,
    with the recording running. *)
Theorem cancel_during_audio_wait_goes_on (video : VideoElement) (w : World)
    (now now' : number) (v : VideoSnapshot)
    (Hbtn : showsProcessButton w = true) (Hidle : in_flight w = false)
    (Hsup : isTypeSupported w (selectMimeType (isTypeSupported w)) = true)
    (Hplay : paused v = false) (Hend : ended v = false) :
  exists w1 w2,
    run_events [ClickProcess video; ClickCancel] w = Some w1
    /\ isProcessing (processing w1) = false
    /\ showsCancelButton w1 = false
    /\ phase (run w1) = AwaitAudio
    /\ run_events [TimerFired; LoadedMetadata; PlayResolved now;
                   AnimationFrame v now'] w1 = Some w2
    /\ Running w2
    /\ showsCancelButton w2 = true
    /\ mediaRecorderRef (refs w2)
       = Some (mkRecorder recording (selectMimeType (isTypeSupported w))
                 8000000 128000 (Some 100%Z) []).
Proof.
  destruct (startable_state w Hbtn Hidle)
    as (u & Hvu & Hproc & Hpvu & Htk & Htm & Hlive & Hph).
  clear Hbtn Hidle.
  open_world w. destruct pr as [ip pg pf pn pt pe].
  unfold recorder_live in Hlive.
  simpl in Hvu, Hproc, Hpvu, Htk, Htm, Hlive, Hph, Hsup.
  subst vu ip pvu tk tm.
  assert (Hmr : mr = None \/ exists rm rv ra rt rg,
                  mr = Some (mkRecorder inactive rm rv ra rt rg)).
  { destruct mr as [[[] rm rv ra rt rg] |]; try discriminate Hlive;
      [right; eauto 6 | left; reflexivity]. }
  clear Hlive.
  destruct Hph as [-> | [-> | ->]];
    destruct Hmr as [-> | (rm & rv & ra & rt & rg & ->)];
    destruct ar as [h |]; destruct sf as [h' |];
    cbv beta iota delta [run_events]; eval_handlers;
    try destruct (Pos.eqb h h'); simpl;
    (do 2 eexists; split; [reflexivity |]; simpl;
     rewrite Hsup, Hplay, Hend; simpl;
     repeat (split; [reflexivity |]);
     unfold Running; simpl; repeat split; eauto).
Qed.

Lemma cancel_during_audio_wait_goes_on_witness :
  let w := world_after [Upload (Some sample_file)] in
  exists w1 w2,
    run_events [ClickProcess sample_video; ClickCancel] w = Some w1
    /\ isProcessing (processing w1) = false
    /\ run_events [TimerFired; LoadedMetadata; PlayResolved (Fin 0);
                   AnimationFrame (playing_at 2) (Fin 2000)] w1 = Some w2
    /\ Running w2.
Proof.
  intro w.
  destruct sample_uploaded_startable as (Hbtn & Hidle).
  destruct (cancel_during_audio_wait_goes_on sample_video w (Fin 0) (Fin 2000)
              (playing_at 2) Hbtn Hidle eq_refl eq_refl eq_refl)
    as (w1 & w2 & H1 & H2 & _ & _ & H3 & H4 & _).
  exists w1, w2. repeat split; try assumption; apply H4.
Defined.

(* ----------------------------------------------------------------- *)
(** ** The remaining time on the page *)

Lemma Zfloor_div60 (n : Z) : Zfloor (IZR n / 60) = (n / 60)%Z.
Proof.
  apply Zfloor_eq.
  pose proof (Z.div_mod n 60 ltac:(lia)) as Hn.
  pose proof (Z.mod_pos_bound n 60 ltac:(lia)) as [Hlo Hhi].
  apply IZR_le in Hlo. apply IZR_lt in Hhi.
  apply (f_equal IZR) in Hn. rewrite plus_IZR, mult_IZR in Hn.
  lra.
Qed.

(** X14.  From one minute on, [formatTime] shows whole minutes and the
    seconds left over: the minutes are an integer of at least 1, the
    seconds lie in [0, 60) and together they make up the argument; for a
    whole number of seconds they are its quotient and remainder by 60. *)
Theorem formatTime_minutes_and_seconds (s : R) (Hs : 60 <= s) :
  exists (m : Z) (r : R),
    formatTime (Fin s) = [Num (Fin (IZR m)); Text "m "; Num (Fin r); Text "s"]
    /\ (1 <= m)%Z
    /\ 0 <= r < 60
    /\ s = 60 * IZR m + r
    /\ forall n : Z, s = IZR n -> m = (n / 60)%Z /\ r = IZR (n mod 60).
Proof.
  exists (Zfloor (s / 60)), (s - 60 * IZR (Zfloor (s / 60))).
  pose proof (Zfloor_bound (s / 60)) as Hb.
  assert (Hm : (1 <= Zfloor (s / 60))%Z) by (apply Zfloor_lub; lra).
  split; [| split; [exact Hm | split; [lra | split; [lra |]]]].
  - unfold formatTime, js_ltb, js_rem, Rtrunc, Rzero.
    rewrite (Rltb_false s 60) by lra.
    rewrite div_Fin by lra. rewrite floor_Fin.
    destruct (Req_dec_T 60 0) as [E | _]; [lra |].
    rewrite (Rleb_true 0 (s / 60)) by lra.
    reflexivity.
  - intros n ->. rewrite Zfloor_div60. split; [reflexivity |].
    pose proof (Z.div_mod n 60 ltac:(lia)) as Hn.
    apply (f_equal IZR) in Hn. rewrite plus_IZR, mult_IZR in Hn. lra.
Qed.

Lemma formatTime_minutes_and_seconds_witness :
  exists (m : Z) (r : R),
    formatTime (Fin 125) = [Num (Fin (IZR m)); Text "m "; Num (Fin r); Text "s"]
    /\ m = 2%Z /\ r = 5.
Proof.
  assert (Hs : 60 <= 125) by lra.
  destruct (formatTime_minutes_and_seconds 125 Hs)
    as (m & r & Hf & _ & _ & _ & Hn).
  destruct (Hn 125%Z eq_refl) as [Hm Hr].
  exists m, r. split; [exact Hf |]. split; [exact Hm | exact Hr].
Defined.

(** X15.  A video whose duration is not known when Process is clicked (NaN
    before the metadata is loaded, or infinite for a stream) starts a
    session all the same; the total on the page is that value, and the
    remaining time is shown in the minutes form with that value as the
    minutes and NaN as the seconds. *)
Theorem eta_of_unknown_duration (video : VideoElement) (w : World)
    (Hbtn : showsProcessButton w = true) (Hidle : in_flight w = false)
    (Hd : duration video = NaN \/ duration video = Infinity false) :
  exists w1,
    step (ClickProcess video) w = Some w1
    /\ isProcessing (processing w1) = true
    /\ totalFrames (processing w1) = duration video
    /\ run_duration (run w1) = duration video
    /\ formatTime (estimatedTimeRemaining (processing w1))
       = [Num (duration video); Text "m "; Num NaN; Text "s"].
Proof.
  destruct (startable_state w Hbtn Hidle) as (u & Hvu & _).
  exists (processVideo_start video w).
  split; [unfold step; rewrite Hbtn, Hidle; reflexivity |].
  unfold processVideo_start. rewrite Hvu.
  destruct video as [vw vh d]. simpl in Hd |- *.
  assert (Hneg : Rneg 60 = false)
    by (unfold Rneg; destruct (Rlt_dec 60 0); [lra | reflexivity]).
  destruct Hd as [-> | ->];
    with_strategy transparent [Math.ceil Math.floor JS.div]
      (repeat split; unfold formatTime; simpl; rewrite ?Hneg; reflexivity).
Qed.

Lemma eta_of_unknown_duration_witness :
  exists w1,
    step (ClickProcess (mkVideo (Fin 1280) (Fin 720) NaN))
      (world_after [Upload (Some sample_file)]) = Some w1
    /\ formatTime (estimatedTimeRemaining (processing w1))
       = [Num NaN; Text "m "; Num NaN; Text "s"].
Proof.
  destruct sample_uploaded_startable as (Hbtn & Hidle).
  destruct (eta_of_unknown_duration (mkVideo (Fin 1280) (Fin 720) NaN)
              (world_after [Upload (Some sample_file)]) Hbtn Hidle
              (or_introl eq_refl))
    as (w1 & Hstep & _ & _ & _ & Hf).
  exists w1. split; assumption.
Defined.

(** X16.  The remaining time published on a frame is a whole number of
    seconds that counts down as the video advances: it never grows from one
    frame to a later one, stays between 0 and the total shown at the start,
    reaches 0 within the last half second, and does not depend on the
    measured speed. *)
Theorem remaining_time_counts_down (ct1 ct2 d : R) (e1 e2 : number)
    (H0 : 0 <= ct1) (H12 : ct1 <= ct2) :
  exists n1 n2 : Z,
    estimatedTimeRemaining (frameState (Fin ct1) (Fin d) e1) = Fin (IZR n1)
    /\ estimatedTimeRemaining (frameState (Fin ct2) (Fin d) e2) = Fin (IZR n2)
    /\ (0 <= n2 <= n1)%Z
    /\ (0 <= d -> (n1 <= Zceil d)%Z)
    /\ (d - / 2 < ct2 -> n2 = 0%Z).
Proof.
  exists (Zfloor (Rmax 0 (d - ct1) + / 2)), (Zfloor (Rmax 0 (d - ct2) + / 2)).
  unfold frameState; simpl.
  rewrite !sub_Fin, !max_Fin, !round_Fin.
  split; [reflexivity | split; [reflexivity |]].
  assert (Hmax : Rmax 0 (d - ct2) <= Rmax 0 (d - ct1)).
  { unfold Rmax.
    destruct (Rle_dec 0 (d - ct2)), (Rle_dec 0 (d - ct1)); lra. }
  assert (Hpos : 0 <= Rmax 0 (d - ct2)) by apply Rmax_l.
  split; [split |]; [| | split].
  - apply Zfloor_lub. simpl. lra.
  - apply Zfloor_le. lra.
  - intros Hd.
    pose proof (Zceil_bound d) as Hc.
    pose proof (Zfloor_bound (Rmax 0 (d - ct1) + / 2)) as Hf.
    assert (Hle : Rmax 0 (d - ct1) <= IZR (Zceil d)).
    { unfold Rmax. destruct (Rle_dec 0 (d - ct1)); lra. }
    apply Z.lt_succ_r. apply lt_IZR. rewrite succ_IZR. lra.
  - intros Hlast. apply Zfloor_eq. simpl.
    unfold Rmax. destruct (Rle_dec 0 (d - ct2)); lra.
Qed.

Lemma remaining_time_counts_down_witness :
  exists n1 n2 : Z,
    estimatedTimeRemaining (frameState (Fin 2) (Fin 10) (Fin 2)) = Fin (IZR n1)
    /\ estimatedTimeRemaining (frameState (Fin 7) (Fin 10) (Fin 8)) = Fin (IZR n2)
    /\ (0 <= n2 <= n1)%Z.
Proof.
  assert (H0 : 0 <= 2) by lra.
  assert (H12 : 2 <= 7) by lra.
  destruct (remaining_time_counts_down 2 7 10 (Fin 2) (Fin 8) H0 H12)
    as (n1 & n2 & E1 & E2 & Hle & _).
  exists n1, n2. repeat split; try assumption; apply Hle.
Defined.

(* ----------------------------------------------------------------- *)
(** ** The controls of the page *)

(** X17.  In every state the page reaches it offers one thing to do:
    without a video none of Process, Cancel and Download is shown and a
    file can be chosen; with a video exactly one of the three is shown and
    no other file can be chosen. *)
Theorem page_offers_one_action (sup : string -> bool) (es : list event)
    (w : World)
    (Hreach : run_events es (initialWorld sup) = Some w) :
  (videoUrl w = None ->
     showsProcessButton w = false /\ showsCancelButton w = false
     /\ showsDownload w = false
     /\ forall file, step (Upload file) w = Some (handleFileUpload file w))
  /\ (videoUrl w <> None ->
        (Nat.b2n (showsProcessButton w) + Nat.b2n (showsCancelButton w)
         + Nat.b2n (showsDownload w) = 1)%nat
        /\ forall file, step (Upload file) w = None).
Proof.
  pose proof (nothing_without_video_reachable sup es w Hreach) as Hinv.
  unfold nothing_without_video in Hinv.
  unfold showsProcessButton, showsCancelButton, showsDownload, step.
  split.
  - intros Hvu. destruct (Hinv Hvu) as (Hpvu & Hproc & _).
    rewrite Hvu, Hpvu, Hproc. repeat split.
  - intros Hvu. destruct (videoUrl w) as [u |]; [| contradiction].
    destruct (isProcessing (processing w)), (processedVideoUrl w);
      simpl; split; reflexivity.
Qed.

Lemma page_offers_one_action_witness :
  videoUrl (world_after sample_running) <> None
  /\ showsCancelButton (world_after sample_running) = true
  /\ showsProcessButton (world_after sample_running) = false
  /\ showsDownload (world_after sample_running) = false.
Proof.
  destruct (page_offers_one_action all_supported sample_running
              (world_after sample_running)) as [_ Hsome].
  { eval_session. reflexivity. }
  assert (Hvu : videoUrl (world_after sample_running) <> None)
    by (eval_session; discriminate).
  destruct (Hsome Hvu) as [Hone _].
  assert (Hc : showsCancelButton (world_after sample_running) = true)
    by (eval_session; reflexivity).
  rewrite Hc in Hone.
  destruct (showsProcessButton (world_after sample_running)),
           (showsDownload (world_after sample_running));
    simpl in Hone; try discriminate Hone.
  repeat split; assumption.
Defined.
